(** * PMG Issue AI pipeline: reconciliation and batch persistence

    A shallow embedding of
      - [post_processing/merge.py]   (PostProcessingPipeline),
      - [database_writer/database_writer.py] (MySQLConnectionManager,
        DatabaseWriter),
      - [database_writer/aws_data_discovery.py] (AWSRDSDiscovery),
    and the properties of the record reconciler, the batch upsert writer,
    the connection manager and the endpoint discovery.

    Python dictionaries with string keys are finite maps [gmap string _];
    Python lists are lists; a call that may raise returns a [result]. *)

From Stdlib Require Import ZArith Ascii String.
From stdpp Require Import base option list sorting gmap fin_maps strings pretty.

Local Open Scope Z_scope.

(** ** Python values and exceptions *)

(** The values that [json.load] and the configuration put into a dictionary
    field.  The code under study only ever tests such a value for [None], for
    being a [str], for truth, renders it with [str()] / an f-string, or copies
    it.  Floats, lists and nested objects are therefore carried by their
    [str()] text and their truth value ([VOther]). *)
Inductive value : Type :=
  | VNone
  | VBool (b : bool)
  | VInt (z : Z)
  | VStr (s : string)
  | VOther (text : string) (truth : bool).

#[global] Instance value_eq_dec : EqDecision value.
Proof. solve_decision. Defined.

#[global] Instance value_inhabited : Inhabited value := populate VNone.

(** [str(v)], which is also what an f-string field [{v}] renders. *)
Definition py_str (v : value) : string :=
  match v with
  | VNone => "None"
  | VBool true => "True"
  | VBool false => "False"
  | VInt z => pretty z
  | VStr s => s
  | VOther text _ => text
  end.

(** Truth value of [v] in a condition ([if v], [a and b], [not v]). *)
Definition truthy (v : value) : bool :=
  match v with
  | VNone => false
  | VBool b => b
  | VInt z => negb (z =? 0)%Z
  | VStr s => negb (String.eqb s "")
  | VOther _ t => t
  end.

(** [d.get(key, default)] *)
Definition dict_get {V : Type} (d : gmap string V) (key : string) (dflt : V) : V :=
  default dflt (d !! key).

(** Exceptions are told apart only as far as the code does: the writer's own
    [DatabaseWriterError], and any other exception; both carry [str(e)]. *)
Inductive exn : Type :=
  | DatabaseWriterError (msg : string)
  | PyException (msg : string).

Definition exn_str (e : exn) : string :=
  match e with
  | DatabaseWriterError msg => msg
  | PyException msg => msg
  end.

Inductive result (A : Type) : Type :=
  | Ok (a : A)
  | Raise (e : exn).
Arguments Ok {A} a.
Arguments Raise {A} e.

Definition is_ok {A : Type} (r : result A) : bool :=
  match r with Ok _ => true | Raise _ => false end.

(** ** String helpers: [str.strip()], [str.lower()], slices, [join] *)

(** A character is a code point below 256.  [str.isspace] on that range:
    TAB..CR, FS..US, SPACE, NEL (0x85) and NBSP (0xA0). *)
Definition is_space (c : ascii) : bool :=
  let n := nat_of_ascii c in
  ((9 <=? n) && (n <=? 13))%nat || ((28 <=? n) && (n <=? 32))%nat
  || (n =? 133)%nat || (n =? 160)%nat.

Fixpoint lstrip (s : string) : string :=
  match s with
  | EmptyString => EmptyString
  | String c s' => if is_space c then lstrip s' else s
  end.

(** Drops trailing white space: a character is kept when it is not white
    space or when something survives after it. *)
Fixpoint rstrip (s : string) : string :=
  match s with
  | EmptyString => EmptyString
  | String c s' =>
      match rstrip s' with
      | EmptyString => if is_space c then EmptyString else String c EmptyString
      | r => String c r
      end
  end.

(** [s.strip()] *)
Definition strip (s : string) : string := rstrip (lstrip s).

(** [s[:n]] *)
Fixpoint str_prefix (n : nat) (s : string) : string :=
  match n, s with
  | O, _ => EmptyString
  | _, EmptyString => EmptyString
  | S n', String c s' => String c (str_prefix n' s')
  end.

(** [str.lower] on code points below 256: A..Z and the Latin-1 capitals
    (0xC0..0xDE except the multiplication sign 0xD7) move up by 32. *)
Definition lower_char (c : ascii) : ascii :=
  let n := nat_of_ascii c in
  if (((65 <=? n) && (n <=? 90)) || ((192 <=? n) && (n <=? 222) && negb (n =? 215)))%nat
  then ascii_of_nat (n + 32) else c.

Fixpoint lower (s : string) : string :=
  match s with
  | EmptyString => EmptyString
  | String c s' => String (lower_char c) (lower s')
  end.

(** [sep.join(parts)] *)
Fixpoint str_join (sep : string) (parts : list string) : string :=
  match parts with
  | [] => ""
  | [p] => p
  | p :: rest => p +:+ sep +:+ str_join sep rest
  end.

(** ** post_processing/merge.py *)

Module Merge.

(** The dictionary returned by [_load_all_data]. *)
Record loaded_data : Type := {
  all_issues : list (gmap string value);
  descriptions : list (gmap string value);
  classifications : list (gmap string value);
  similar_issues : list (gmap string value);
  timeline_predictions : list (gmap string value);
  action_recommendations : list (gmap string value)
}.

(** The dictionary of lookup tables returned by [_create_lookups]. *)
Record lookups : Type := {
  descriptions_lookup : gmap string (gmap string value);
  classifications_lookup : gmap string (gmap string value);
  similar_issues_lookup : gmap string (gmap string value);
  timeline_lookup : gmap string (gmap string value);
  actions_lookup : gmap string (gmap string value)
}.

(** [f"{project_id}_{issue_id}"] *)
Definition format_key (project_id issue_id : value) : string :=
  py_str project_id +:+ "_" +:+ py_str issue_id.

(** The key under which one annotation entry is stored, when the guard
    [if project_id and issue_id] lets it in. *)
Definition entry_key (e : gmap string value) : option string :=
  let project_id := dict_get e "projectId" (VStr "") in
  let issue_id := dict_get e "issueId" (VStr "") in
  if truthy project_id && truthy issue_id
  then Some (format_key project_id issue_id)
  else None.

(** One iteration of a lookup-building loop: [lookup[key] = entry]. *)
Definition add_entry (acc : gmap string (gmap string value)) (e : gmap string value)
  : gmap string (gmap string value) :=
  match entry_key e with
  | Some key => <[key := e]> acc
  | None => acc
  end.

(** One of the five loops of [_create_lookups], which are the same loop over
    five datasets. *)
Definition build_lookup (entries : list (gmap string value))
  : gmap string (gmap string value) :=
  fold_left add_entry entries ∅.

Definition _create_lookups (data : loaded_data) : lookups :=
  {| descriptions_lookup := build_lookup (descriptions data);
     classifications_lookup := build_lookup (classifications data);
     similar_issues_lookup := build_lookup (similar_issues data);
     timeline_lookup := build_lookup (timeline_predictions data);
     actions_lookup := build_lookup (action_recommendations data) |}.

(** The items of the [final_record] literal, in the order it is written. *)
Definition final_record_items (issue : gmap string value) (lk : lookups)
  : list (string * value) :=
  let project_id := dict_get issue "projectId" (VStr "") in
  let issue_id := dict_get issue "issueId" (VStr "") in
  let issue_key := format_key project_id issue_id in
  let desc_data := dict_get (descriptions_lookup lk) issue_key ∅ in
  let cls_data := dict_get (classifications_lookup lk) issue_key ∅ in
  let sim_data := dict_get (similar_issues_lookup lk) issue_key ∅ in
  let timeline_data := dict_get (timeline_lookup lk) issue_key ∅ in
  let action_data := dict_get (actions_lookup lk) issue_key ∅ in
  [ ("Project ID", project_id);
    ("Issue ID", issue_id);
    ("Short Description", dict_get desc_data "shortDescription" (VStr ""));
    ("Long Description", dict_get desc_data "longDescription" (VStr ""));
    ("Project Issue class", dict_get cls_data "classification" (VStr ""));
    ("Similar Issue 1 Project ID", dict_get sim_data "similarIssue1ProjectId" (VStr ""));
    ("Similar Issue 1 Issue ID", dict_get sim_data "similarIssue1IssueId" (VStr ""));
    ("Similar Issue 1 Name", dict_get sim_data "similarIssue1Name" (VStr ""));
    ("Similar Issue 1 Start Date", dict_get sim_data "similarIssue1StartDate" (VStr ""));
    ("Similar Issue 1 Resolution Time",
       dict_get sim_data "similarIssue1ResolutionTime" (VStr ""));
    ("Similar Issue 2 Project ID", dict_get sim_data "similarIssue2ProjectId" (VStr ""));
    ("Similar Issue 2 Issue ID", dict_get sim_data "similarIssue2IssueId" (VStr ""));
    ("Similar Issue 2 Name", dict_get sim_data "similarIssue2Name" (VStr ""));
    ("Similar Issue 2 Start Date", dict_get sim_data "similarIssue2StartDate" (VStr ""));
    ("Similar Issue 2 Resolution Time",
       dict_get sim_data "similarIssue2ResolutionTime" (VStr ""));
    ("Similar Issue 3 Project ID", dict_get sim_data "similarIssue3ProjectId" (VStr ""));
    ("Similar Issue 3 Issue ID", dict_get sim_data "similarIssue3IssueId" (VStr ""));
    ("Similar Issue 3 Name", dict_get sim_data "similarIssue3Name" (VStr ""));
    ("Similar Issue 3 Start Date", dict_get sim_data "similarIssue3StartDate" (VStr ""));
    ("Similar Issue 3 Resolution Time",
       dict_get sim_data "similarIssue3ResolutionTime" (VStr ""));
    ("Time AI Predicted Timeline",
       dict_get timeline_data "timeAiPredictedTimeline" (VStr ""));
    ("Issue Start Date",
       dict_get timeline_data "issueStartDate"
         (dict_get issue "issueCreationDate" (VStr "")));
    ("Predicted End Date", dict_get timeline_data "predictedEndDate" (VStr ""));
    ("Timeline Resolution Rationale",
       dict_get timeline_data "timelineReasoning" (VStr ""));
    ("Immediate next steps", dict_get action_data "immediateNextSteps" (VStr ""));
    ("Learn from similar Issues",
       dict_get action_data "learnFromSimilarIssues" (VStr ""));
    ("Strategic Best practice",
       dict_get action_data "strategicBestPractice" (VStr "")) ].

Definition _combine_single_issue (issue : gmap string value) (lk : lookups)
  : gmap string value :=
  list_to_map (final_record_items issue lk).

(** The record appended by the [except] branch of [_process_all_issues] for
    the [i]-th issue (counted from 1) when combining it raised [e]. *)
Definition error_record_items (i : nat) (issue : gmap string value) (e : exn)
  : list (string * value) :=
  [ ("Project ID", dict_get issue "projectId" (VStr "Unknown"));
    ("Issue ID", dict_get issue "issueId" (VStr ("Issue_" +:+ pretty i)));
    ("Short Description", VStr ("Processing error: " +:+ exn_str e));
    ("Long Description", VStr "Please contact support for assistance");
    ("Project Issue class", VStr "Error");
    ("Similar Issue 1 Project ID", VStr "");
    ("Similar Issue 1 Issue ID", VStr "");
    ("Similar Issue 1 Name", VStr "");
    ("Similar Issue 1 Start Date", VStr "");
    ("Similar Issue 1 Resolution Time", VStr "");
    ("Similar Issue 2 Project ID", VStr "");
    ("Similar Issue 2 Issue ID", VStr "");
    ("Similar Issue 2 Name", VStr "");
    ("Similar Issue 2 Start Date", VStr "");
    ("Similar Issue 2 Resolution Time", VStr "");
    ("Similar Issue 3 Project ID", VStr "");
    ("Similar Issue 3 Issue ID", VStr "");
    ("Similar Issue 3 Name", VStr "");
    ("Similar Issue 3 Start Date", VStr "");
    ("Similar Issue 3 Resolution Time", VStr "");
    ("Time AI Predicted Timeline", VStr "");
    ("Issue Start Date", dict_get issue "issueCreationDate" (VStr ""));
    ("Predicted End Date", VStr "");
    ("Timeline Resolution Rationale", VStr "Processing error occurred");
    ("Immediate next steps", VStr "Contact support for assistance");
    ("Learn from similar Issues", VStr "Review issue data and retry");
    ("Strategic Best practice", VStr "Check system logs and retry processing") ].

Definition error_record (i : nat) (issue : gmap string value) (e : exn)
  : gmap string value :=
  list_to_map (error_record_items i issue e).

(** The loop state of [_process_all_issues]. *)
Record progress : Type := {
  final_results : list (gmap string value);
  successful_count : nat;
  error_count : nat
}.

(** The body of the [for i, issue in enumerate(all_issues, 1)] loop.  The
    [try] block calls the combining method; [combine] stands for that call
    and says whether it returned or raised. *)
Definition process_step
    (combine : gmap string value → lookups → result (gmap string value))
    (lk : lookups) (st : progress) (item : nat * gmap string value) : progress :=
  let '(i, issue) := item in
  match combine issue lk with
  | Ok combined_result =>
      {| final_results := final_results st ++ [combined_result];
         successful_count := S (successful_count st);
         error_count := error_count st |}
  | Raise e =>
      {| final_results := final_results st ++ [error_record i issue e];
         successful_count := successful_count st;
         error_count := S (error_count st) |}
  end.

(** [enumerate(xs, 1)] *)
Definition enumerate1 {A : Type} (xs : list A) : list (nat * A) :=
  imap (λ k x, (S k, x)) xs.

(** [_process_all_issues] around an arbitrary combining method. *)
Definition process_all_issues_with
    (combine : gmap string value → lookups → result (gmap string value))
    (all_issues : list (gmap string value)) (lk : lookups)
  : list (gmap string value) :=
  final_results
    (fold_left (process_step combine lk) (enumerate1 all_issues)
       {| final_results := []; successful_count := 0; error_count := 0 |}).

(** [_process_all_issues]: the combining method is [_combine_single_issue],
    which returns on every dictionary. *)
Definition _process_all_issues (all_issues : list (gmap string value)) (lk : lookups)
  : list (gmap string value) :=
  process_all_issues_with (λ issue lk, Ok (_combine_single_issue issue lk))
    all_issues lk.

End Merge.

(** ** database_writer/database_writer.py: MySQLConnectionManager *)

Module ConnectionManager.

(** The [connection_config] dictionary: its scalar entries, and the nested
    [connection_params] dictionary when the key is present. *)
Record connection_config : Type := {
  config_entries : gmap string value;
  config_connection_params : option (gmap string value)
}.

(** The attributes of a [MySQLConnectionManager] after [__init__]. *)
Record manager : Type := {
  host : value;
  port : value;
  database : value;
  username : value;
  password : value;
  connection_params : gmap string value
}.

Definition default_params : gmap string value :=
  list_to_map
    [ ("charset", VStr "utf8mb4");
      ("connect_timeout", VInt 30);
      ("autocommit", VBool true);
      ("use_unicode", VBool true);
      ("sql_mode",
         VStr "STRICT_TRANS_TABLES,NO_ZERO_DATE,NO_ZERO_IN_DATE,ERROR_FOR_DIVISION_BY_ZERO") ].

(** [{k: v for k, v in params.items() if k != 'sslmode'}] *)
Definition filtered_params (params : gmap string value) : gmap string value :=
  filter (λ kv, kv.1 ≠ "sslmode") params.

(** [{**default_params, **filtered_params}]: the right operand wins. *)
Definition merge_params (params : gmap string value) : gmap string value :=
  filtered_params params ∪ default_params.

Definition __init__ (cfg : connection_config) : manager :=
  let params := default ∅ (config_connection_params cfg) in
  {| host := dict_get (config_entries cfg) "host" VNone;
     port := dict_get (config_entries cfg) "port" (VInt 3306);
     database := dict_get (config_entries cfg) "database" VNone;
     username := dict_get (config_entries cfg) "username" VNone;
     password := dict_get (config_entries cfg) "password" VNone;
     connection_params := merge_params params |}.

End ConnectionManager.

(** ** database_writer/database_writer.py: DatabaseWriter *)

Module Writer.

(** [field_mapping], in the order of the literal (the order in which
    [field_mapping.items()] is walked). *)
Definition field_mapping : list (string * string) :=
  [ ("Project ID", "project_id");
    ("Issue ID", "issue_id");
    ("Short Description", "short_description");
    ("Long Description", "long_description");
    ("Project Issue class", "project_issue_class");
    ("Similar Issue 1 Project ID", "similar_issue_1_project_id");
    ("Similar Issue 1 Issue ID", "similar_issue_1_issue_id");
    ("Similar Issue 1 Name", "similar_issue_1_name");
    ("Similar Issue 1 Start Date", "similar_issue_1_start_date");
    ("Similar Issue 1 Resolution Time", "similar_issue_1_resolution_time");
    ("Similar Issue 2 Project ID", "similar_issue_2_project_id");
    ("Similar Issue 2 Issue ID", "similar_issue_2_issue_id");
    ("Similar Issue 2 Name", "similar_issue_2_name");
    ("Similar Issue 2 Start Date", "similar_issue_2_start_date");
    ("Similar Issue 2 Resolution Time", "similar_issue_2_resolution_time");
    ("Similar Issue 3 Project ID", "similar_issue_3_project_id");
    ("Similar Issue 3 Issue ID", "similar_issue_3_issue_id");
    ("Similar Issue 3 Name", "similar_issue_3_name");
    ("Similar Issue 3 Start Date", "similar_issue_3_start_date");
    ("Similar Issue 3 Resolution Time", "similar_issue_3_resolution_time");
    ("Time AI Predicted Timeline", "time_ai_predicted_timeline");
    ("Issue Start Date", "issue_start_date");
    ("Predicted End Date", "predicted_end_date");
    ("Timeline Resolution Rationale", "timeline_resolution_rationale");
    ("Immediate next steps", "immediate_next_steps");
    ("Learn from similar Issues", "learn_from_similar_issues");
    ("Strategic Best practice", "strategic_best_practice") ].

(** [x in [..]] for strings *)
Definition str_in (x : string) (l : list string) : bool :=
  existsb (String.eqb x) l.

(** The value after
    [if value is None: value = '' elif not isinstance(value, str): value = str(value)]. *)
Definition to_text (v : value) : string :=
  match v with
  | VNone => ""
  | VStr s => s
  | other => py_str other
  end.

(** [value[:n] if value else None] *)
Definition truncate_or_none (n : nat) (text : string) : value :=
  if String.eqb text "" then VNone else VStr (str_prefix n text).

(** The body of the loop over [field_mapping.items()], from the [None] test
    to the value stored under [db_field]. *)
Definition prepare_field (db_field : string) (raw : value) : result value :=
  let text := strip (to_text raw) in
  if str_in db_field ["project_id"; "issue_id"] then
    if String.eqb text ""
    then Raise (DatabaseWriterError ("Required field " +:+ db_field +:+ " is empty"))
    else Ok (VStr (str_prefix 100 text))
  else if String.eqb db_field "project_issue_class" then
    Ok (truncate_or_none 300 text)
  else if str_in db_field
            ["similar_issue_1_project_id"; "similar_issue_2_project_id";
             "similar_issue_3_project_id"; "similar_issue_1_issue_id";
             "similar_issue_2_issue_id"; "similar_issue_3_issue_id"] then
    Ok (truncate_or_none 100 text)
  else if str_in db_field
            ["similar_issue_1_start_date"; "similar_issue_2_start_date";
             "similar_issue_3_start_date"; "similar_issue_1_resolution_time";
             "similar_issue_2_resolution_time"; "similar_issue_3_resolution_time";
             "time_ai_predicted_timeline"; "issue_start_date"; "predicted_end_date"] then
    Ok (truncate_or_none 50 text)
  else if String.eqb text "" then Ok VNone
  else Ok (VStr text).

(** The loop over the mapping: the first field that raises ends it. *)
Fixpoint prepare_fields (mapping : list (string * string))
    (record db_record : gmap string value) : result (gmap string value) :=
  match mapping with
  | [] => Ok db_record
  | (original_field, db_field) :: rest =>
      match prepare_field db_field (dict_get record original_field (VStr "")) with
      | Ok v => prepare_fields rest record (<[db_field := v]> db_record)
      | Raise e => Raise e
      end
  end.

Definition _prepare_record_for_db (record : gmap string value)
  : result (gmap string value) :=
  match prepare_fields field_mapping record ∅ with
  | Ok db_record =>
      Ok (<["processing_status" := VStr "completed"]>
            (<["ml_pipeline_version" := VStr "1.0.0"]> db_record))
  | Raise e => Raise e
  end.

(** [fields] of [_get_insert_sql], which is also [field_order] of
    [_insert_batch]. *)
Definition field_order : list string :=
  [ "project_id"; "issue_id"; "short_description"; "long_description";
    "project_issue_class";
    "similar_issue_1_project_id"; "similar_issue_1_issue_id"; "similar_issue_1_name";
    "similar_issue_1_start_date"; "similar_issue_1_resolution_time";
    "similar_issue_2_project_id"; "similar_issue_2_issue_id"; "similar_issue_2_name";
    "similar_issue_2_start_date"; "similar_issue_2_resolution_time";
    "similar_issue_3_project_id"; "similar_issue_3_issue_id"; "similar_issue_3_name";
    "similar_issue_3_start_date"; "similar_issue_3_resolution_time";
    "time_ai_predicted_timeline"; "issue_start_date"; "predicted_end_date";
    "timeline_resolution_rationale"; "immediate_next_steps";
    "learn_from_similar_issues"; "strategic_best_practice";
    "ml_pipeline_version"; "processing_status" ].

(** The settings of a [DatabaseWriter] that the write path reads. *)
Record writer : Type := {
  table_name : string;
  batch_size : Z;
  update_existing : bool
}.

Definition newline : string := String (ascii_of_nat 10) EmptyString.
Definition indent : string := "            ".

Definition _get_insert_sql (self : writer) : string :=
  let fields := field_order in
  let placeholders := str_join ", " (map (λ _, "%s") fields) in
  let fields_str := str_join ", " (map (λ field, "`" +:+ field +:+ "`") fields) in
  if update_existing self then
    let update_clauses : list string :=
      (map (λ field, "`" +:+ field +:+ "` = VALUES(`" +:+ field +:+ "`)")
           (filter (λ field, str_in field ["project_id"; "issue_id"] = false) fields)
       ++ ["`updated_at` = CURRENT_TIMESTAMP"])%list in
    let update_str := str_join ", " update_clauses in
    newline +:+ indent +:+ "INSERT INTO `" +:+ table_name self +:+ "` ("
      +:+ fields_str +:+ ")" +:+ newline
      +:+ indent +:+ "VALUES (" +:+ placeholders +:+ ")" +:+ newline
      +:+ indent +:+ "ON DUPLICATE KEY UPDATE " +:+ update_str +:+ newline
      +:+ indent
  else
    newline +:+ indent +:+ "INSERT INTO `" +:+ table_name self +:+ "` ("
      +:+ fields_str +:+ ")" +:+ newline
      +:+ indent +:+ "VALUES (" +:+ placeholders +:+ ")" +:+ newline
      +:+ indent.

(** One [cursor.executemany(sql, data_tuples)] on a fresh connection. *)
Record db_call : Type := {
  call_sql : string;
  call_rows : list (list value)
}.

(** The database as the writer sees it: given the calls made so far and the
    present call, either an exception (from connecting, executing or
    committing) or the [cursor.rowcount] of the statement. *)
Definition engine : Type := list db_call → db_call → result Z.

(** [tuple(record.get(field) for field in field_order)] *)
Definition data_tuple (record : gmap string value) : list value :=
  map (λ field, dict_get record field VNone) field_order.

(** [_insert_batch]; the log of calls is the state it threads. *)
Definition _insert_batch (self : writer) (db : engine) (log : list db_call)
    (records : list (gmap string value)) : list db_call * result Z :=
  match records with
  | [] => (log, Ok 0)
  | _ =>
      let data_tuples := map data_tuple records in
      let sql := _get_insert_sql self in
      let call := {| call_sql := sql; call_rows := data_tuples |} in
      match db log call with
      | Ok affected_rows =>
          ((log ++ [call])%list, Ok (Z.of_nat (length data_tuples)))
      | Raise e =>
          ((log ++ [call])%list,
           Raise (DatabaseWriterError ("Failed to insert batch: " +:+ exn_str e)))
      end
  end.

(** The statistics dictionary returned by [_write_data_to_db]. *)
Record stats : Type := {
  total_records : Z;
  total_processed : Z;
  total_errors : Z;
  batch_count : Z
}.

(** The loop state of [_write_data_to_db]: the counters and the call log. *)
Record run_state : Type := {
  st_log : list db_call;
  st_processed : Z;
  st_errors : Z;
  st_batches : Z
}.

(** The inner loop [for record in batch]: a record that fails preparation is
    left out of [db_batch] and counted. *)
Definition prepare_step (acc : list (gmap string value) * Z)
    (record : gmap string value) : list (gmap string value) * Z :=
  match _prepare_record_for_db record with
  | Ok db_record => ((acc.1 ++ [db_record])%list, acc.2)
  | Raise _ => (acc.1, acc.2 + 1)
  end.

(** The body of the loop over batches. *)
Definition process_batch (self : writer) (db : engine) (st : run_state)
    (batch : list (gmap string value)) : run_state :=
  let batch_count := st_batches st + 1 in
  let '(db_batch, total_errors) := fold_left prepare_step batch ([], st_errors st) in
  match db_batch with
  | [] =>
      {| st_log := st_log st; st_processed := st_processed st;
         st_errors := total_errors; st_batches := batch_count |}
  | _ =>
      match _insert_batch self db (st_log st) db_batch with
      | (log, Ok processed) =>
          {| st_log := log; st_processed := st_processed st + processed;
             st_errors := total_errors; st_batches := batch_count |}
      | (log, Raise e) =>
          {| st_log := log; st_processed := st_processed st;
             st_errors := total_errors + Z.of_nat (length batch);
             st_batches := batch_count |}
      end
  end.

(** Number of elements of [range(0, stop, step)] for [step > 0]. *)
Definition ceil_div (stop step : nat) : nat := ((stop + step - 1) / step)%nat.

(** [range(0, stop, step)] for [step > 0] *)
Definition range_step (stop step : nat) : list nat :=
  map (λ k, k * step)%nat (seq 0 (ceil_div stop step)).

(** [[records[i:i + step] for i in range(0, len(records), step)]] *)
Definition batches {A : Type} (step : nat) (records : list A) : list (list A) :=
  map (λ i, take step (drop i records)) (range_step (length records) step).

Definition _write_data_to_db (self : writer) (db : engine) (log : list db_call)
    (records : list (gmap string value)) : list db_call * result stats :=
  let init := {| st_log := log; st_processed := 0; st_errors := 0; st_batches := 0 |} in
  let finish st :=
    (st_log st,
     Ok {| total_records := Z.of_nat (length records);
           total_processed := st_processed st;
           total_errors := st_errors st;
           batch_count := st_batches st |}) in
  match batch_size self with
  | Z0 => (log, Raise (PyException "range() arg 3 must not be zero"))
  | Zneg _ => finish init
  | Zpos p =>
      finish (fold_left (process_batch self db) (batches (Pos.to_nat p) records) init)
  end.

End Writer.

(** ** database_writer/aws_data_discovery.py: AWSRDSDiscovery *)

Module Discovery.

(** One element of [response['DBInstances']].  The keys the code subscripts
    are fields; the keys it reads with [.get] are optional.  The allocated
    storage, which every described instance reports, is a number. *)
Record db_instance : Type := {
  DBInstanceIdentifier : string;
  Engine : string;
  EndpointAddress : string;
  EndpointPort : Z;
  DBInstanceStatus : string;
  AvailabilityZone : string;
  VpcSecurityGroups : list string;
  DBSubnetGroupName : option string;
  PubliclyAccessible : option bool;
  StorageEncrypted : option bool;
  MasterUsername : option string;
  AllocatedStorage : Z;
  DBInstanceClass : option string;
  InstanceCreateTime : option string   (* its isoformat() text *)
}.

(** The [instance_info] dictionary built for a MySQL instance. *)
Record instance_info : Type := {
  identifier : string;
  engine : string;
  host : string;
  port : Z;
  status : string;
  availability_zone : string;
  vpc_security_groups : list string;
  db_subnet_group : option string;
  publicly_accessible : bool;
  storage_encrypted : bool;
  master_username : option string;
  allocated_storage : Z;
  db_instance_class : option string;
  creation_time : string
}.

(** What an [AWSRDSDiscovery] object holds and what its clients answer:
    [rds_client] is absent, or [describe_db_instances()] raises or returns the
    instances; [ec2_client] is absent, or [describe_instances] raises, has no
    reservation, or gives the availability zone of this machine. *)
Record discovery : Type := {
  rds_client : option (result (list db_instance));
  ec2_client : option (result (option string));
  instance_id : option string
}.

Definition make_instance_info (d : db_instance) : instance_info :=
  {| identifier := DBInstanceIdentifier d;
     engine := Engine d;
     host := EndpointAddress d;
     port := EndpointPort d;
     status := DBInstanceStatus d;
     availability_zone := AvailabilityZone d;
     vpc_security_groups := VpcSecurityGroups d;
     db_subnet_group := DBSubnetGroupName d;
     publicly_accessible := default false (PubliclyAccessible d);
     storage_encrypted := default false (StorageEncrypted d);
     master_username := MasterUsername d;
     allocated_storage := AllocatedStorage d;
     db_instance_class := DBInstanceClass d;
     creation_time := default "" (InstanceCreateTime d) |}.

(** [not self.instance_id] *)
Definition no_instance_id (self : discovery) : bool :=
  match instance_id self with
  | None => true
  | Some s => String.eqb s ""
  end.

Definition _is_instance_accessible (self : discovery) (info : instance_info) : bool :=
  if publicly_accessible info then true
  else if no_instance_id self then true
  else String.eqb (lower (status info)) "available".

(** [db_instance['Engine'].lower() in ['mysql', 'aurora-mysql']] *)
Definition is_mysql_engine (d : db_instance) : bool :=
  Writer.str_in (lower (Engine d)) ["mysql"; "aurora-mysql"].

(** The body of the loop over [response['DBInstances']]. *)
Definition discover_step (self : discovery) (mysql_instances : list instance_info)
    (d : db_instance) : list instance_info :=
  if is_mysql_engine d then
    let info := make_instance_info d in
    if _is_instance_accessible self info
    then (mysql_instances ++ [info])%list
    else mysql_instances
  else mysql_instances.

Definition discover_mysql_instances (self : discovery) : list instance_info :=
  match rds_client self with
  | None => []
  | Some (Raise _) => []
  | Some (Ok instances) => fold_left (discover_step self) instances []
  end.

Definition _is_same_availability_zone (self : discovery) (info : instance_info) : bool :=
  if no_instance_id self then false
  else match ec2_client self with
       | None => false
       | Some (Raise _) => false
       | Some (Ok None) => false
       | Some (Ok (Some ec2_az)) => String.eqb (availability_zone info) ec2_az
       end.

(** [sort_key]: the triple (status score, same-zone score, storage score). *)
Definition sort_key (self : discovery) (info : instance_info) : Z * Z * Z :=
  let status_score := if String.eqb (status info) "available" then 1 else 0 in
  let same_az_score := if _is_same_availability_zone self info then 1 else 0 in
  let storage_score := allocated_storage info in
  (status_score, same_az_score, storage_score).

(** [a < b] on triples, as Python compares tuples. *)
Definition key_lt (a b : Z * Z * Z) : bool :=
  let '(a1, a2, a3) := a in
  let '(b1, b2, b3) := b in
  if negb (a1 =? b1)%Z then (a1 <? b1)%Z
  else if negb (a2 =? b2)%Z then (a2 <? b2)%Z
  else (a3 <? b3)%Z.

(** [list.sort(key=key, reverse=True)]: descending by key, and stable (equal
    keys keep their order).  [insert_desc] puts [x], which stood before every
    element of the sorted tail, in front of the first element whose key is
    not greater. *)
Fixpoint insert_desc {A : Type} (key : A → Z * Z * Z) (x : A) (sorted : list A) : list A :=
  match sorted with
  | [] => [x]
  | y :: ys =>
      if key_lt (key x) (key y) then y :: insert_desc key x ys
      else x :: y :: ys
  end.

Definition sort_desc {A : Type} (key : A → Z * Z * Z) (l : list A) : list A :=
  foldr (insert_desc key) [] l.

Definition get_recommended_instance (self : discovery) : option instance_info :=
  let instances := discover_mysql_instances self in
  match instances with
  | [] => None
  | _ => head (sort_desc (sort_key self) instances)
  end.

End Discovery.

(** * Properties *)

(** ** Dictionary literals *)

(** Reading a key from an item list, first item first. *)
Fixpoint items_lookup {V : Type} (key : string) (items : list (string * V)) : option V :=
  match items with
  | [] => None
  | (k, v) :: rest => if String.eqb k key then Some v else items_lookup key rest
  end.

Lemma list_to_map_items_lookup {V : Type} (items : list (string * V)) (key : string) :
  (list_to_map items : gmap string V) !! key = items_lookup key items.
Proof.
  induction items as [|[k v] rest IH]; simpl.
  - apply lookup_empty.
  - destruct (String.eqb_spec k key) as [->|Hne].
    + apply lookup_insert_eq.
    + rewrite lookup_insert_ne by done. exact IH.
Qed.

Lemma dict_get_empty {V : Type} (key : string) (dflt : V) :
  dict_get (∅ : gmap string V) key dflt = dflt.
Proof. unfold dict_get. by rewrite lookup_empty. Qed.

Lemma dict_get_miss {V : Type} (d : gmap string V) (key : string) (dflt : V) :
  d !! key = None → dict_get d key dflt = dflt.
Proof. unfold dict_get. by intros ->. Qed.

Lemma dict_get_hit {V : Type} (d : gmap string V) (key : string) (dflt v : V) :
  d !! key = Some v → dict_get d key dflt = v.
Proof. unfold dict_get. by intros ->. Qed.

(** ** Record reconciler *)

Module MergeProps.
Import Merge.

(** What the loop appends for the [i]-th issue. *)
Definition emitted
    (combine : gmap string value → lookups → result (gmap string value))
    (lk : lookups) (item : nat * gmap string value) : gmap string value :=
  match combine item.2 lk with
  | Ok combined_result => combined_result
  | Raise e => error_record item.1 item.2 e
  end.

Lemma process_step_results combine lk st item :
  final_results (process_step combine lk st item)
  = final_results st ++ [emitted combine lk item].
Proof.
  destruct item as [i issue]. unfold process_step, emitted. simpl.
  by destruct (combine issue lk).
Qed.

Lemma process_fold_results combine lk items st :
  final_results (fold_left (process_step combine lk) items st)
  = final_results st ++ map (emitted combine lk) items.
Proof.
  revert st. induction items as [|item items IH]; intros st; simpl.
  - by rewrite app_nil_r.
  - rewrite IH, process_step_results, <- app_assoc. reflexivity.
Qed.

Lemma process_all_issues_with_map combine all_issues lk :
  process_all_issues_with combine all_issues lk
  = map (emitted combine lk) (enumerate1 all_issues).
Proof. unfold process_all_issues_with. by rewrite process_fold_results. Qed.

Lemma enumerate1_lookup {A : Type} (xs : list A) (k : nat) (x : A) :
  xs !! k = Some x → enumerate1 xs !! k = Some (S k, x).
Proof. intros H. unfold enumerate1. by rewrite list_lookup_imap, H. Qed.

Lemma process_all_issues_with_lookup combine all_issues lk k issue :
  all_issues !! k = Some issue →
  process_all_issues_with combine all_issues lk !! k
  = Some (emitted combine lk (S k, issue)).
Proof.
  intros H. rewrite process_all_issues_with_map, list_lookup_fmap.
  by rewrite (enumerate1_lookup _ _ _ H).
Qed.

Lemma process_all_issues_with_length combine all_issues lk :
  length (process_all_issues_with combine all_issues lk) = length all_issues.
Proof.
  rewrite process_all_issues_with_map, length_map.
  unfold enumerate1. apply length_imap.
Qed.

(** C1 (cardinality invariance).  Whatever the combining call does on each
    issue (return or raise), [_process_all_issues] yields exactly one record
    per base issue, at the position of that issue: the combined record when
    the call returned, and otherwise the sentinel, which carries the issue's
    project and issue ids (or the stand-ins Unknown and Issue_i when the issue
    lacks them) and a short description starting with Processing error.  With
    the real [_combine_single_issue], which returns on every dictionary, the
    k-th record is the combination of the k-th issue. *)
Theorem process_all_issues_cardinality
    (combine : gmap string value → lookups → result (gmap string value))
    (all_issues : list (gmap string value)) (lk : lookups) :
  length (process_all_issues_with combine all_issues lk) = length all_issues
  ∧ (∀ (k : nat) (issue : gmap string value),
       all_issues !! k = Some issue →
       ∃ r, process_all_issues_with combine all_issues lk !! k = Some r
         ∧ match combine issue lk with
           | Ok combined_result => r = combined_result
           | Raise e =>
               r = error_record (S k) issue e
               ∧ r !! "Project ID" = Some (dict_get issue "projectId" (VStr "Unknown"))
               ∧ r !! "Issue ID"
                 = Some (dict_get issue "issueId" (VStr ("Issue_" +:+ pretty (S k))))
               ∧ r !! "Short Description"
                 = Some (VStr ("Processing error: " +:+ exn_str e))
           end)
  ∧ length (_process_all_issues all_issues lk) = length all_issues
  ∧ (∀ (k : nat) (issue : gmap string value),
       all_issues !! k = Some issue →
       _process_all_issues all_issues lk !! k = Some (_combine_single_issue issue lk)).
Proof.
  split; [apply process_all_issues_with_length|].
  split.
  - intros k issue Hk. eexists. split.
    + by apply process_all_issues_with_lookup.
    + unfold emitted; simpl. destruct (combine issue lk) as [r|e]; [done|].
      repeat split; unfold error_record; by rewrite list_to_map_items_lookup.
  - split; [apply process_all_issues_with_length|].
    intros k issue Hk. unfold _process_all_issues.
    by rewrite (process_all_issues_with_lookup _ _ _ _ _ Hk).
Qed.

(** The five annotation datasets, each with its entries and its table. *)
Inductive dataset : Type :=
  | Descriptions | Classifications | SimilarIssues | Timelines | Actions.

Definition entries_of (d : dataset) (data : loaded_data) : list (gmap string value) :=
  match d with
  | Descriptions => descriptions data
  | Classifications => classifications data
  | SimilarIssues => similar_issues data
  | Timelines => timeline_predictions data
  | Actions => action_recommendations data
  end.

Definition table_of (d : dataset) (lk : lookups) : gmap string (gmap string value) :=
  match d with
  | Descriptions => descriptions_lookup lk
  | Classifications => classifications_lookup lk
  | SimilarIssues => similar_issues_lookup lk
  | Timelines => timeline_lookup lk
  | Actions => actions_lookup lk
  end.

(** The annotation-derived columns whose fallback is the empty string: the
    column, the dataset it is read from, and the field read. *)
Definition annotation_columns : list (string * dataset * string) :=
  [ ("Short Description", Descriptions, "shortDescription");
    ("Long Description", Descriptions, "longDescription");
    ("Project Issue class", Classifications, "classification");
    ("Similar Issue 1 Project ID", SimilarIssues, "similarIssue1ProjectId");
    ("Similar Issue 1 Issue ID", SimilarIssues, "similarIssue1IssueId");
    ("Similar Issue 1 Name", SimilarIssues, "similarIssue1Name");
    ("Similar Issue 1 Start Date", SimilarIssues, "similarIssue1StartDate");
    ("Similar Issue 1 Resolution Time", SimilarIssues, "similarIssue1ResolutionTime");
    ("Similar Issue 2 Project ID", SimilarIssues, "similarIssue2ProjectId");
    ("Similar Issue 2 Issue ID", SimilarIssues, "similarIssue2IssueId");
    ("Similar Issue 2 Name", SimilarIssues, "similarIssue2Name");
    ("Similar Issue 2 Start Date", SimilarIssues, "similarIssue2StartDate");
    ("Similar Issue 2 Resolution Time", SimilarIssues, "similarIssue2ResolutionTime");
    ("Similar Issue 3 Project ID", SimilarIssues, "similarIssue3ProjectId");
    ("Similar Issue 3 Issue ID", SimilarIssues, "similarIssue3IssueId");
    ("Similar Issue 3 Name", SimilarIssues, "similarIssue3Name");
    ("Similar Issue 3 Start Date", SimilarIssues, "similarIssue3StartDate");
    ("Similar Issue 3 Resolution Time", SimilarIssues, "similarIssue3ResolutionTime");
    ("Time AI Predicted Timeline", Timelines, "timeAiPredictedTimeline");
    ("Predicted End Date", Timelines, "predictedEndDate");
    ("Timeline Resolution Rationale", Timelines, "timelineReasoning");
    ("Immediate next steps", Actions, "immediateNextSteps");
    ("Learn from similar Issues", Actions, "learnFromSimilarIssues");
    ("Strategic Best practice", Actions, "strategicBestPractice") ].

(** The key [_combine_single_issue] computes for an issue. *)
Definition issue_key (issue : gmap string value) : string :=
  format_key (dict_get issue "projectId" (VStr "")) (dict_get issue "issueId" (VStr "")).

(** Every annotation column of the combined record is the field of the entry
    found under the issue's key, or the empty string. *)
Lemma combine_annotation_column issue lk col d field :
  (col, d, field) ∈ annotation_columns →
  _combine_single_issue issue lk !! col
  = Some (dict_get (dict_get (table_of d lk) (issue_key issue) ∅) field (VStr "")).
Proof.
  intros Hin. unfold _combine_single_issue.
  rewrite list_to_map_items_lookup.
  unfold annotation_columns in Hin.
  repeat (apply elem_of_cons in Hin as [[= -> -> ->]|Hin]; [reflexivity|]).
  by apply elem_of_nil in Hin.
Qed.

Lemma combine_issue_start_date issue lk :
  _combine_single_issue issue lk !! "Issue Start Date"
  = Some (dict_get (dict_get (timeline_lookup lk) (issue_key issue) ∅) "issueStartDate"
            (dict_get issue "issueCreationDate" (VStr ""))).
Proof. unfold _combine_single_issue. by rewrite list_to_map_items_lookup. Qed.

(** C6 (fallback correctness).  When the key of a base issue is in none of
    the five lookup tables, every annotation-derived column of the combined
    record is the empty string, and Issue Start Date is the issue's own
    issueCreationDate (the empty string when the issue has none). *)
Theorem combine_single_issue_fallback (issue : gmap string value) (lk : lookups) :
  (∀ d : dataset, table_of d lk !! issue_key issue = None) →
  (∀ col d field, (col, d, field) ∈ annotation_columns →
     _combine_single_issue issue lk !! col = Some (VStr ""))
  ∧ _combine_single_issue issue lk !! "Issue Start Date"
    = Some (dict_get issue "issueCreationDate" (VStr ""))
  ∧ (∀ created, issue !! "issueCreationDate" = Some created →
       _combine_single_issue issue lk !! "Issue Start Date" = Some created).
Proof.
  intros Hmiss.
  assert (Hdate : _combine_single_issue issue lk !! "Issue Start Date"
                  = Some (dict_get issue "issueCreationDate" (VStr ""))).
  { rewrite combine_issue_start_date.
    rewrite (dict_get_miss _ _ _ (Hmiss Timelines)). by rewrite dict_get_empty. }
  split; [|split].
  - intros col d field Hin.
    rewrite (combine_annotation_column _ _ _ _ _ Hin).
    rewrite (dict_get_miss _ _ _ (Hmiss d)). by rewrite dict_get_empty.
  - exact Hdate.
  - intros created Hc. rewrite Hdate. by rewrite (dict_get_hit _ _ _ _ Hc).
Qed.

(** *** Lookup tables *)

Lemma fold_add_entry_miss entries acc k :
  Forall (λ e, entry_key e ≠ Some k) entries →
  fold_left add_entry entries acc !! k = acc !! k.
Proof.
  revert acc. induction entries as [|e entries IH]; intros acc Hall; simpl; [done|].
  apply Forall_cons in Hall as [He Hall].
  rewrite (IH _ Hall). unfold add_entry.
  destruct (entry_key e) as [k'|]; [|done].
  apply lookup_insert_ne. congruence.
Qed.

(** The entry stored under a key is the last entry that carries it. *)
Lemma build_lookup_last before e after k :
  entry_key e = Some k →
  Forall (λ e', entry_key e' ≠ Some k) after →
  build_lookup (before ++ e :: after) !! k = Some e.
Proof.
  intros He Hafter. unfold build_lookup.
  rewrite fold_left_app. simpl.
  rewrite (fold_add_entry_miss _ _ _ Hafter).
  unfold add_entry. rewrite He. apply lookup_insert_eq.
Qed.

Lemma create_lookups_table d data :
  table_of d (_create_lookups data) = build_lookup (entries_of d data).
Proof. by destruct d. Qed.

(** C7 (last write wins).  In each of the five datasets, when two entries
    carry the same key (the key the guarded loop computes for them) and no
    entry after the second one carries it, the table built by
    [_create_lookups] maps the key to the second entry, and every annotation
    column that [_combine_single_issue] fills from that dataset for an issue
    with this key is read from the second entry. *)
Theorem create_lookups_last_write_wins
    (d : dataset) (data : loaded_data)
    (before between after : list (gmap string value))
    (e1 e2 : gmap string value) (k : string) :
  entries_of d data = before ++ e1 :: between ++ e2 :: after →
  entry_key e1 = Some k →
  entry_key e2 = Some k →
  Forall (λ e, entry_key e ≠ Some k) after →
  table_of d (_create_lookups data) !! k = Some e2
  ∧ (∀ issue col field,
       issue_key issue = k →
       (col, d, field) ∈ annotation_columns →
       _combine_single_issue issue (_create_lookups data) !! col
       = Some (dict_get e2 field (VStr ""))).
Proof.
  intros Hsplit _ He2 Hafter.
  assert (Htbl : table_of d (_create_lookups data) !! k = Some e2).
  { rewrite create_lookups_table, Hsplit.
    replace (before ++ e1 :: between ++ e2 :: after)
      with ((before ++ e1 :: between) ++ e2 :: after)
      by (by rewrite <- app_assoc).
    by apply build_lookup_last. }
  split; [exact Htbl|].
  intros issue col field Hk Hin.
  rewrite (combine_annotation_column _ _ _ _ _ Hin), Hk.
  by rewrite (dict_get_hit _ _ _ _ Htbl).
Qed.

(** *** Sample datasets *)

Definition sample_issue : gmap string value :=
  list_to_map [ ("projectId", VStr "P1"); ("issueId", VStr "I1");
                ("issueCreationDate", VStr "2024-01-15") ].

Definition sample_description (short : string) : gmap string value :=
  list_to_map [ ("projectId", VStr "P1"); ("issueId", VStr "I1");
                ("shortDescription", VStr short) ].

(** Two descriptions for the same issue, and nothing else. *)
Definition sample_data : loaded_data :=
  {| all_issues := [sample_issue];
     descriptions := [sample_description "first draft"; sample_description "final text"];
     classifications := [];
     similar_issues := [];
     timeline_predictions := [];
     action_recommendations := [] |}.

(** No annotation at all. *)
Definition sample_bare : loaded_data :=
  {| all_issues := [sample_issue];
     descriptions := []; classifications := []; similar_issues := [];
     timeline_predictions := []; action_recommendations := [] |}.

Lemma combine_single_issue_fallback_witness :
  (∀ d : dataset, table_of d (_create_lookups sample_bare) !! issue_key sample_issue = None)
  ∧ _combine_single_issue sample_issue (_create_lookups sample_bare) !! "Short Description"
    = Some (VStr "")
  ∧ _combine_single_issue sample_issue (_create_lookups sample_bare) !! "Issue Start Date"
    = Some (VStr "2024-01-15").
Proof.
  assert (Hmiss : ∀ d : dataset,
             table_of d (_create_lookups sample_bare) !! issue_key sample_issue = None)
    by (intros []; reflexivity).
  destruct (combine_single_issue_fallback sample_issue (_create_lookups sample_bare) Hmiss)
    as (Hcols & _ & Hdate).
  split; [exact Hmiss|]. split.
  - apply (Hcols "Short Description" Descriptions "shortDescription").
    apply list_elem_of_here.
  - apply Hdate. reflexivity.
Defined.

Lemma create_lookups_last_write_wins_witness :
  descriptions_lookup (_create_lookups sample_data) !! "P1_I1"
  = Some (sample_description "final text")
  ∧ _combine_single_issue sample_issue (_create_lookups sample_data) !! "Short Description"
    = Some (VStr "final text").
Proof.
  destruct (create_lookups_last_write_wins Descriptions sample_data
              [] [] [] (sample_description "first draft")
              (sample_description "final text") "P1_I1")
    as [Htbl Hcol].
  - reflexivity.
  - reflexivity.
  - reflexivity.
  - constructor.
  - split; [exact Htbl|].
    apply (Hcol sample_issue "Short Description" "shortDescription").
    + reflexivity.
    + apply list_elem_of_here.
Defined.

End MergeProps.

(** ** Batch upsert writer *)

Module WriterProps.
Import Writer.

Local Open Scope nat_scope.

(** *** The partition into batches *)

Lemma ceil_div_zero step : 0 < step → ceil_div 0 step = 0.
Proof. intros H. unfold ceil_div. apply Nat.div_small. lia. Qed.

Lemma ceil_div_step stop step :
  0 < step → 0 < stop → ceil_div stop step = S (ceil_div (stop - step) step).
Proof.
  intros Hstep Hstop. unfold ceil_div.
  destruct (Nat.le_gt_cases step stop) as [Hle|Hlt].
  - replace (stop + step - 1) with ((stop - step + step - 1) + 1 * step) by lia.
    rewrite Nat.div_add by lia. lia.
  - replace (stop - step) with 0 by lia. simpl.
    rewrite (Nat.div_small (step - 1)) by lia.
    replace (stop + step - 1) with ((stop - 1) + 1 * step) by lia.
    rewrite Nat.div_add by lia. rewrite Nat.div_small by lia. reflexivity.
Qed.

Lemma batches_nil {A : Type} step : 0 < step → batches step (@nil A) = [].
Proof. intros H. unfold batches, range_step. simpl. by rewrite ceil_div_zero. Qed.

Lemma batches_unfold {A : Type} step (records : list A) :
  0 < step → records ≠ [] →
  batches step records = take step records :: batches step (drop step records).
Proof.
  intros Hstep Hne. unfold batches, range_step.
  assert (0 < length records) by (destruct records; [done|simpl; lia]).
  rewrite (ceil_div_step (length records) step) by done.
  rewrite length_drop. simpl. f_equal.
  rewrite <- seq_shift, !map_map. apply map_ext. intros k.
  rewrite drop_drop. f_equal; lia.
Qed.

(** Induction along the batches of a list. *)
Lemma batches_ind {A : Type} (step : nat) (P : list A → list (list A) → Prop) :
  0 < step →
  P [] [] →
  (∀ records, records ≠ [] →
     P (drop step records) (batches step (drop step records)) →
     P records (take step records :: batches step (drop step records))) →
  ∀ records, P records (batches step records).
Proof.
  intros Hstep Hnil Hcons records.
  induction records as [records IH] using (induction_ltof1 _ (@length A)).
  unfold ltof in IH.
  destruct records as [|x records].
  - by rewrite batches_nil.
  - rewrite batches_unfold by done. apply Hcons; [done|].
    apply IH. rewrite length_drop. simpl. lia.
Qed.

Lemma batches_length {A : Type} step (records : list A) :
  length (batches step records) = ceil_div (length records) step.
Proof. unfold batches, range_step. by rewrite !length_map, length_seq. Qed.

Lemma batches_concat {A : Type} step (records : list A) :
  0 < step → concat (batches step records) = records.
Proof.
  intros Hstep. apply (batches_ind step (λ rs bs, concat bs = rs)); [done|done|].
  intros rs _ IH. simpl. rewrite IH. apply take_drop.
Qed.

Lemma batches_bounded {A : Type} step (records : list A) :
  Forall (λ b, length b ≤ step) (batches step records).
Proof.
  unfold batches. apply Forall_fmap, Forall_forall. intros i _. simpl.
  rewrite length_take. lia.
Qed.

Lemma batches_nonempty {A : Type} step (records : list A) :
  0 < step → Forall (λ b, b ≠ []) (batches step records).
Proof.
  intros Hstep. apply (batches_ind step (λ _ bs, Forall (λ b, b ≠ []) bs)); [done|done|].
  intros rs Hne IH. constructor; [|done].
  destruct rs; [done|]. destruct step; [lia|done].
Qed.

(** *** Field preparation *)

(** The text of a column after the [None] / [str()] conversion and
    [strip()]. *)
Definition column_text (record : gmap string value) (original_field : string) : string :=
  strip (to_text (dict_get record original_field (VStr ""))).

(** A record one of whose two required columns is empty after trimming. *)
Definition required_field_empty (record : gmap string value) : Prop :=
  column_text record "Project ID" = "" ∨ column_text record "Issue ID" = "".

#[global] Instance required_field_empty_dec record : Decision (required_field_empty record).
Proof. unfold required_field_empty. apply _. Defined.

Definition is_key_field (db_field : string) : bool :=
  str_in db_field ["project_id"; "issue_id"].

Lemma field_mapping_cases o f :
  (o, f) ∈ field_mapping →
  (o = "Project ID" ∧ f = "project_id") ∨ (o = "Issue ID" ∧ f = "issue_id")
  ∨ is_key_field f = false.
Proof.
  intros Hin. unfold field_mapping in Hin.
  repeat (apply elem_of_cons in Hin as [[= -> ->]|Hin];
          [first [by left | by right; left | by right; right]|]).
  by apply elem_of_nil in Hin.
Qed.

Lemma field_mapping_not_metadata o f :
  (o, f) ∈ field_mapping → f ≠ "ml_pipeline_version" ∧ f ≠ "processing_status".
Proof.
  intros Hin. unfold field_mapping in Hin.
  repeat (apply elem_of_cons in Hin as [[= -> ->]|Hin]; [by split|]).
  by apply elem_of_nil in Hin.
Qed.

Lemma field_mapping_NoDup : NoDup (field_mapping.*2).
Proof. apply (bool_decide_unpack _). by vm_compute. Qed.

Lemma str_prefix_nonempty n text : text ≠ "" → str_prefix (S n) text ≠ "".
Proof. by destruct text. Qed.

Lemma truncated_nonempty n text : text ≠ "" → VStr (str_prefix (S n) text) ≠ VStr "".
Proof. intros H [= Heq]. by apply (str_prefix_nonempty n text). Qed.

Lemma eqb_empty_false text : text ≠ "" → String.eqb text "" = false.
Proof. intros H. by apply String.eqb_neq. Qed.

(** A key field raises exactly when its text is empty. *)
Lemma prepare_field_key f raw :
  is_key_field f = true →
  prepare_field f raw
  = if String.eqb (strip (to_text raw)) ""
    then Raise (DatabaseWriterError ("Required field " +:+ f +:+ " is empty"))
    else Ok (VStr (str_prefix 100 (strip (to_text raw)))).
Proof. intros Hk. unfold prepare_field. fold (is_key_field f). by rewrite Hk. Qed.

(** Any other field never raises, and an empty text gives [None]. *)
Lemma prepare_field_other f raw :
  is_key_field f = false →
  ∃ v, prepare_field f raw = Ok v
     ∧ v ≠ VStr ""
     ∧ (strip (to_text raw) = "" → v = VNone).
Proof.
  intros Hk. unfold prepare_field. fold (is_key_field f). rewrite Hk.
  unfold truncate_or_none.
  destruct (String.eqb_spec (strip (to_text raw)) "") as [->|Hne].
  - exists VNone. repeat case_match; done.
  - repeat case_match; eexists; (split; [reflexivity|]); (split; [|done]);
      first [by apply truncated_nonempty | congruence].
Qed.

Lemma prepare_field_raise_inv f raw e :
  prepare_field f raw = Raise e →
  is_key_field f = true ∧ strip (to_text raw) = ""
  ∧ e = DatabaseWriterError ("Required field " +:+ f +:+ " is empty").
Proof.
  intros H. destruct (is_key_field f) eqn:Hk.
  - rewrite prepare_field_key in H by done.
    destruct (String.eqb_spec (strip (to_text raw)) ""); [|done].
    by injection H as <-.
  - destruct (prepare_field_other f raw Hk) as (v & Hv & _). congruence.
Qed.

Lemma prepare_field_ok_nonempty f raw v :
  prepare_field f raw = Ok v → v ≠ VStr "".
Proof.
  intros H. destruct (is_key_field f) eqn:Hk.
  - rewrite prepare_field_key in H by done.
    destruct (String.eqb_spec (strip (to_text raw)) "") as [|Hne]; [done|].
    assert (v = VStr (str_prefix 100 (strip (to_text raw)))) as -> by congruence.
    by apply (truncated_nonempty 99).
  - destruct (prepare_field_other f raw Hk) as (v' & Hv & Hne & _). congruence.
Qed.

(** The loop over the mapping raises exactly the failure of its first
    failing field. *)
Lemma prepare_fields_raise_inv mapping record acc e :
  prepare_fields mapping record acc = Raise e →
  ∃ o f, (o, f) ∈ mapping
       ∧ prepare_field f (dict_get record o (VStr "")) = Raise e.
Proof.
  revert acc. induction mapping as [|[o f] mapping IH]; intros acc H; simpl in H; [done|].
  destruct (prepare_field f _) as [v|e'] eqn:Hf.
  - destruct (IH _ H) as (o' & f' & Hin & Hr). exists o', f'. split; [by right|done].
  - injection H as <-. exists o, f. split; [by left|done].
Qed.

Lemma prepare_fields_ok_all mapping record acc d :
  prepare_fields mapping record acc = Ok d →
  ∀ o f, (o, f) ∈ mapping →
    ∃ v, prepare_field f (dict_get record o (VStr "")) = Ok v.
Proof.
  revert acc. induction mapping as [|[o f] mapping IH]; intros acc H o' f' Hin.
  - by apply elem_of_nil in Hin.
  - simpl in H. destruct (prepare_field f _) as [v|e'] eqn:Hf; [|done].
    apply elem_of_cons in Hin as [[= -> ->]|Hin]; [eauto|]. by eapply IH.
Qed.

Lemma prepare_fields_total mapping record acc :
  (∀ o f, (o, f) ∈ mapping →
     ∃ v, prepare_field f (dict_get record o (VStr "")) = Ok v) →
  ∃ d, prepare_fields mapping record acc = Ok d.
Proof.
  revert acc. induction mapping as [|[o f] mapping IH]; intros acc H; simpl; [eauto|].
  destruct (H o f) as [v ->]; [by left|].
  apply IH. intros o' f' Hin. apply H. by right.
Qed.

(** The prepared dictionary holds, under each mapped field, the value
    prepared for it, and nothing else besides what it started with. *)
Lemma prepare_fields_lookup mapping record acc d :
  NoDup (mapping.*2) →
  prepare_fields mapping record acc = Ok d →
  (∀ o f, (o, f) ∈ mapping →
     ∃ v, prepare_field f (dict_get record o (VStr "")) = Ok v ∧ d !! f = Some v)
  ∧ (∀ f, f ∉ mapping.*2 → d !! f = acc !! f).
Proof.
  revert acc. induction mapping as [|[o f] mapping IH]; intros acc Hnd H.
  - simpl in H. injection H as <-. split; [|done].
    intros o f Hin. by apply elem_of_nil in Hin.
  - simpl in H, Hnd. apply NoDup_cons in Hnd as [Hf Hnd].
    destruct (prepare_field f _) as [v|e'] eqn:Hv; [|done].
    destruct (IH _ Hnd H) as [Hin Hout]. split.
    + intros o' f' Hmem. apply elem_of_cons in Hmem as [[= -> ->]|Hmem]; [|by apply Hin].
      exists v. split; [done|]. rewrite (Hout _ Hf). apply lookup_insert_eq.
    + intros f' Hnot. apply not_elem_of_cons in Hnot as [Hne Hnot].
      rewrite (Hout _ Hnot). by apply lookup_insert_ne.
Qed.

(** A record is rejected exactly when a required column is empty. *)
Lemma prepare_record_cases record :
  (required_field_empty record
   ∧ ∃ msg, _prepare_record_for_db record = Raise (DatabaseWriterError msg))
  ∨ (¬ required_field_empty record
     ∧ ∃ d, _prepare_record_for_db record = Ok d).
Proof.
  unfold _prepare_record_for_db.
  destruct (prepare_fields field_mapping record ∅) as [d|e] eqn:Hp.
  - right. split; [|eauto]. intros [Hempty|Hempty].
    + destruct (prepare_fields_ok_all _ _ _ _ Hp "Project ID" "project_id") as [v Hv];
        [apply list_elem_of_here|].
      rewrite prepare_field_key in Hv by done.
      unfold column_text in Hempty. by rewrite Hempty in Hv.
    + destruct (prepare_fields_ok_all _ _ _ _ Hp "Issue ID" "issue_id") as [v Hv];
        [apply list_elem_of_further, list_elem_of_here|].
      rewrite prepare_field_key in Hv by done.
      unfold column_text in Hempty. by rewrite Hempty in Hv.
  - left. destruct (prepare_fields_raise_inv _ _ _ _ Hp) as (o & f & Hin & Hr).
    apply prepare_field_raise_inv in Hr as (Hk & Htext & ->).
    split; [|eauto].
    destruct (field_mapping_cases _ _ Hin) as [[-> ->]|[[-> ->]|Hn]];
      [by left|by right|congruence].
Qed.

(** *** Preparation of a batch *)

(** The prepared records of the records that survive field preparation. *)
Definition accepted (batch : list (gmap string value)) : list (gmap string value) :=
  omap (λ record,
          match _prepare_record_for_db record with
          | Ok db_record => Some db_record
          | Raise _ => None
          end) batch.

(** The records on which field preparation raises. *)
Definition rejected (batch : list (gmap string value)) : list (gmap string value) :=
  filter (λ record, is_ok (_prepare_record_for_db record) = false) batch.

(** The call [_insert_batch] makes for a non-empty prepared batch. *)
Definition batch_call (self : writer) (db_batch : list (gmap string value)) : db_call :=
  {| call_sql := _get_insert_sql self; call_rows := map data_tuple db_batch |}.

(** One call per batch with at least one surviving record. *)
Definition batch_calls (self : writer) (bs : list (list (gmap string value)))
  : list db_call :=
  omap (λ batch,
          match accepted batch with
          | [] => None
          | _ :: _ => Some (batch_call self (accepted batch))
          end) bs.

Lemma accepted_app b1 b2 : accepted (b1 ++ b2) = accepted b1 ++ accepted b2.
Proof. apply omap_app. Qed.

Lemma rejected_app b1 b2 : rejected (b1 ++ b2) = rejected b1 ++ rejected b2.
Proof. apply filter_app. Qed.

Lemma accepted_cons record batch :
  accepted (record :: batch)
  = match _prepare_record_for_db record with
    | Ok db_record => db_record :: accepted batch
    | Raise _ => accepted batch
    end.
Proof. unfold accepted. simpl. by destruct (_prepare_record_for_db record). Qed.

Lemma rejected_cons record batch :
  rejected (record :: batch)
  = match _prepare_record_for_db record with
    | Ok _ => rejected batch
    | Raise _ => record :: rejected batch
    end.
Proof.
  unfold rejected. rewrite filter_cons.
  destruct (_prepare_record_for_db record); simpl; try case_decide; done.
Qed.

Lemma accepted_rejected_length batch :
  length (accepted batch) + length (rejected batch) = length batch.
Proof.
  induction batch as [|r batch IH]; [done|].
  rewrite accepted_cons, rejected_cons.
  destruct (_prepare_record_for_db r); simpl; lia.
Qed.

Lemma prepare_fold batch acc (n : Z) :
  fold_left prepare_step batch (acc, n)
  = (acc ++ accepted batch, (n + Z.of_nat (length (rejected batch)))%Z).
Proof.
  revert acc n. induction batch as [|r batch IH]; intros acc n.
  - simpl. rewrite app_nil_r. f_equal. lia.
  - rewrite accepted_cons, rejected_cons. cbn [fold_left].
    unfold prepare_step at 2.
    destruct (_prepare_record_for_db r) as [d|e]; simpl; rewrite IH.
    + by rewrite <- app_assoc.
    + f_equal. lia.
Qed.

Lemma insert_batch_call self db log db_batch :
  db_batch ≠ [] →
  _insert_batch self db log db_batch
  = (log ++ [batch_call self db_batch],
     match db log (batch_call self db_batch) with
     | Ok _ => Ok (Z.of_nat (length db_batch))
     | Raise e => Raise (DatabaseWriterError ("Failed to insert batch: " +:+ exn_str e))
     end).
Proof.
  intros Hne. destruct db_batch as [|d db_batch]; [done|].
  unfold _insert_batch, batch_call. rewrite length_map.
  by destruct (db log _).
Qed.

(** The loop body, spelled out on the prepared batch. *)
Lemma process_batch_spec self db st batch :
  process_batch self db st batch
  = match accepted batch with
    | [] =>
        {| st_log := st_log st; st_processed := st_processed st;
           st_errors := (st_errors st + Z.of_nat (length (rejected batch)))%Z;
           st_batches := (st_batches st + 1)%Z |}
    | _ :: _ =>
        match db (st_log st) (batch_call self (accepted batch)) with
        | Ok _ =>
            {| st_log := st_log st ++ [batch_call self (accepted batch)];
               st_processed :=
                 (st_processed st + Z.of_nat (length (accepted batch)))%Z;
               st_errors := (st_errors st + Z.of_nat (length (rejected batch)))%Z;
               st_batches := (st_batches st + 1)%Z |}
        | Raise _ =>
            {| st_log := st_log st ++ [batch_call self (accepted batch)];
               st_processed := st_processed st;
               st_errors := (st_errors st + Z.of_nat (length (rejected batch))
                             + Z.of_nat (length batch))%Z;
               st_batches := (st_batches st + 1)%Z |}
        end
    end.
Proof.
  unfold process_batch. rewrite prepare_fold. simpl.
  destruct (accepted batch) as [|d ds] eqn:Hacc; [done|].
  rewrite insert_batch_call by done.
  by destruct (db _ _).
Qed.

Lemma process_batch_log self db st batch :
  st_log (process_batch self db st batch) = st_log st ++ batch_calls self [batch].
Proof.
  rewrite process_batch_spec. unfold batch_calls. simpl.
  destruct (accepted batch) as [|d ds]; simpl; [by rewrite app_nil_r|].
  by destruct (db _ _).
Qed.

Lemma batch_calls_cons self batch bs :
  batch_calls self (batch :: bs) = batch_calls self [batch] ++ batch_calls self bs.
Proof. unfold batch_calls. simpl. by destruct (accepted batch). Qed.

(** The calls made do not depend on what the database answers. *)
Lemma run_log self db bs st :
  st_log (fold_left (process_batch self db) bs st) = st_log st ++ batch_calls self bs.
Proof.
  revert st. induction bs as [|batch bs IH]; intros st.
  - simpl. by rewrite app_nil_r.
  - rewrite (batch_calls_cons _ batch bs). cbn [fold_left].
    by rewrite IH, process_batch_log, app_assoc.
Qed.

Lemma run_batches self db bs st :
  st_batches (fold_left (process_batch self db) bs st)
  = (st_batches st + Z.of_nat (length bs))%Z.
Proof.
  revert st. induction bs as [|batch bs IH]; intros st; simpl; [lia|].
  rewrite IH, process_batch_spec.
  destruct (accepted batch); [simpl; lia|].
  destruct (db _ _); simpl; lia.
Qed.

Lemma run_errors_lower self db bs st :
  (st_errors st + Z.of_nat (length (rejected (concat bs)))
   ≤ st_errors (fold_left (process_batch self db) bs st))%Z.
Proof.
  revert st. induction bs as [|batch bs IH]; intros st; simpl; [lia|].
  etrans; [|apply IH]. rewrite rejected_app, length_app, process_batch_spec.
  destruct (accepted batch); [simpl; lia|].
  destruct (db _ _); simpl; lia.
Qed.

(** With a database that never fails, the counters are exact. *)
Lemma run_counters_ok self db bs st :
  (∀ log call, is_ok (db log call) = true) →
  st_errors (fold_left (process_batch self db) bs st)
  = (st_errors st + Z.of_nat (length (rejected (concat bs))))%Z
  ∧ st_processed (fold_left (process_batch self db) bs st)
    = (st_processed st + Z.of_nat (length (accepted (concat bs))))%Z.
Proof.
  intros Hok. revert st. induction bs as [|batch bs IH]; intros st; simpl; [lia|].
  destruct (IH (process_batch self db st batch)) as [-> ->].
  rewrite rejected_app, accepted_app, !length_app, process_batch_spec.
  destruct (accepted batch) as [|d ds] eqn:Hacc; [simpl; lia|].
  specialize (Hok (st_log st) (batch_call self (d :: ds))).
  destruct (db _ _); [simpl in *; lia|done].
Qed.

(** The run as a whole, for a positive batch size. *)
Lemma write_data_to_db_run self db log records :
  (0 < batch_size self)%Z →
  ∃ st,
    _write_data_to_db self db log records
    = (log ++ batch_calls self (batches (Z.to_nat (batch_size self)) records), Ok st)
    ∧ total_records st = Z.of_nat (length records)
    ∧ batch_count st = Z.of_nat (ceil_div (length records) (Z.to_nat (batch_size self)))
    ∧ (Z.of_nat (length (rejected records)) ≤ total_errors st)%Z
    ∧ ((∀ l call, is_ok (db l call) = true) →
         total_errors st = Z.of_nat (length (rejected records))
         ∧ total_processed st = Z.of_nat (length (accepted records))).
Proof.
  intros Hpos. unfold _write_data_to_db.
  destruct (batch_size self) as [|p|p] eqn:Hb; [lia| |lia].
  rewrite Z2Nat.inj_pos. set (bs := batches (Pos.to_nat p) records).
  assert (Hcat : concat bs = records) by (apply batches_concat; lia).
  set (init := {| st_log := log; st_processed := 0; st_errors := 0; st_batches := 0 |}).
  rewrite run_log. eexists. split; [reflexivity|].
  cbn [total_records total_processed total_errors batch_count].
  split; [reflexivity|]. split; [|split].
  - rewrite run_batches. unfold bs. rewrite batches_length. cbn [st_batches init]. lia.
  - pose proof (run_errors_lower self db bs init) as H.
    rewrite Hcat in H. cbn [st_errors init] in H. lia.
  - intros Hok.
    destruct (run_counters_ok self db bs init Hok) as [-> ->].
    rewrite Hcat. cbn [st_errors st_processed init]. lia.
Qed.

(** *** What is sent to the database *)

Lemma elem_of_concat {A : Type} (x : A) (ls : list (list A)) :
  x ∈ concat ls ↔ ∃ l, l ∈ ls ∧ x ∈ l.
Proof.
  induction ls as [|l ls IH]; simpl.
  - split; [by intros ?%elem_of_nil|]. by intros (l & ?%elem_of_nil & _).
  - rewrite elem_of_app, IH. split.
    + intros [H|(l' & H1 & H2)]; [exists l; split; [left|done]|].
      exists l'. split; [by right|done].
    + intros (l' & [->|H1]%elem_of_cons & H2); [by left|]. right. eauto.
Qed.

Lemma batch_calls_rows self bs :
  concat (call_rows <$> batch_calls self bs) = data_tuple <$> accepted (concat bs).
Proof.
  induction bs as [|batch bs IH]; [done|].
  rewrite batch_calls_cons, fmap_app, concat_app, IH.
  cbn [concat]. rewrite accepted_app, fmap_app. f_equal.
  unfold batch_calls. simpl.
  destruct (accepted batch) as [|d ds]; [done|]. simpl. by rewrite app_nil_r.
Qed.

Lemma batch_calls_length self bs :
  length (batch_calls self bs) = length (filter (λ batch, accepted batch ≠ []) bs).
Proof.
  induction bs as [|batch bs IH]; [done|].
  rewrite batch_calls_cons, length_app, IH, filter_cons.
  unfold batch_calls. simpl.
  destruct (accepted batch) as [|d ds]; case_decide; simpl; done.
Qed.

Lemma batch_calls_length_le self bs : length (batch_calls self bs) ≤ length bs.
Proof. rewrite batch_calls_length. apply length_filter. Qed.

Lemma accepted_length_le batch : length (accepted batch) ≤ length batch.
Proof. pose proof (accepted_rejected_length batch). lia. Qed.

Lemma accepted_within_calls self step bs :
  Forall (λ b, length b ≤ step) bs →
  length (accepted (concat bs)) ≤ step * length (batch_calls self bs).
Proof.
  induction 1 as [|batch bs Hb Hbs IH]; [simpl; lia|].
  rewrite batch_calls_cons, length_app. cbn [concat].
  rewrite accepted_app, length_app.
  pose proof (accepted_length_le batch).
  unfold batch_calls at 1. simpl.
  destruct (accepted batch) as [|d ds]; simpl in *; nia.
Qed.

Lemma batch_calls_none_rejected self bs :
  rejected (concat bs) = [] → Forall (λ b, b ≠ []) bs →
  length (batch_calls self bs) = length bs.
Proof.
  intros Hrej Hne. induction Hne as [|batch bs Hb Hbs IH]; [done|].
  cbn [concat] in Hrej. rewrite rejected_app in Hrej.
  apply app_eq_nil in Hrej as [Hr1 Hr2].
  rewrite batch_calls_cons, length_app, (IH Hr2).
  pose proof (accepted_rejected_length batch) as Hlen. rewrite Hr1 in Hlen.
  unfold batch_calls. simpl.
  destruct (accepted batch) as [|d ds]; [|done].
  destruct batch; [done|simpl in Hlen; lia].
Qed.

Lemma ceil_div_le_bound m step c : 0 < step → m ≤ step * c → ceil_div m step ≤ c.
Proof.
  intros Hstep Hm. unfold ceil_div.
  assert ((m + step - 1) / step < S c); [|lia].
  apply Nat.Div0.div_lt_upper_bound; lia.
Qed.

(** The business key sent for a surviving record: its two required
    columns, trimmed and cut to 100 characters. *)
Lemma prepared_key record d :
  _prepare_record_for_db record = Ok d →
  take 2 (data_tuple d)
  = [ VStr (str_prefix 100 (column_text record "Project ID"));
      VStr (str_prefix 100 (column_text record "Issue ID")) ].
Proof.
  intros Hp. unfold _prepare_record_for_db in Hp.
  destruct (prepare_fields field_mapping record ∅) as [d0|e] eqn:Hf; [|done].
  injection Hp as <-.
  destruct (prepare_fields_lookup _ _ _ _ field_mapping_NoDup Hf) as [Hin _].
  destruct (Hin "Project ID" "project_id") as (v1 & Hv1 & Hd1);
    [apply list_elem_of_here|].
  destruct (Hin "Issue ID" "issue_id") as (v2 & Hv2 & Hd2);
    [apply list_elem_of_further, list_elem_of_here|].
  rewrite prepare_field_key in Hv1, Hv2 by done.
  fold (column_text record "Project ID") in Hv1.
  fold (column_text record "Issue ID") in Hv2.
  destruct (String.eqb (column_text record "Project ID") ""); [done|].
  destruct (String.eqb (column_text record "Issue ID") ""); [done|].
  assert (v1 = VStr (str_prefix 100 (column_text record "Project ID"))) as ->
    by congruence.
  assert (v2 = VStr (str_prefix 100 (column_text record "Issue ID"))) as ->
    by congruence.
  unfold data_tuple, field_order. cbn [map take]. unfold dict_get.
  rewrite !lookup_insert_ne by done. by rewrite Hd1, Hd2.
Qed.

(** *** Sample runs *)

Definition sample_writer (size : Z) : writer :=
  {| table_name := "ml_results"; batch_size := size; update_existing := true |}.

Definition sample_record (project_id issue_id : string) : gmap string value :=
  list_to_map [ ("Project ID", VStr project_id); ("Issue ID", VStr issue_id);
                ("Short Description", VStr "Land acquisition delay") ].

(** A database that accepts every statement and reports one row per tuple. *)
Definition engine_accepts : engine :=
  λ _ call, Ok (Z.of_nat (length (call_rows call))).

(** A database whose first statement fails and whose later ones succeed. *)
Definition engine_first_fails : engine :=
  λ log call,
    match log with
    | [] => Raise (PyException "Lost connection to MySQL server")
    | _ => Ok (Z.of_nat (length (call_rows call)))
    end.

(** A database on which every row already exists: an upsert that updates a
    row reports two affected rows for it. *)
Definition engine_updates : engine :=
  λ _ call, Ok (2 * Z.of_nat (length (call_rows call)))%Z.

(** *** The claims on the writer *)

(** C2, as the code behaves.  A failure of the database call makes
    [_insert_batch] raise a [DatabaseWriterError], but the loop body of
    [_write_data_to_db] catches it: the failed batch is called once and not
    again, its records are counted as errors (at least the length of the
    batch is added), nothing is added to the processed count, and the run
    goes on: for a positive batch size [_write_data_to_db] always returns its
    statistics, having made one call, in order, for every batch with a
    surviving record, whatever the database answered to the earlier ones. *)
Theorem chunk_failure_is_isolated
    (self : writer) (db : engine) (log : list db_call)
    (records : list (gmap string value)) :
  (0 < batch_size self)%Z →
  (∀ l db_batch e,
     db_batch ≠ [] → db l (batch_call self db_batch) = Raise e →
     _insert_batch self db l db_batch
     = (l ++ [batch_call self db_batch],
        Raise (DatabaseWriterError ("Failed to insert batch: " +:+ exn_str e))))
  ∧ (∀ st batch e,
       accepted batch ≠ [] →
       db (st_log st) (batch_call self (accepted batch)) = Raise e →
       st_log (process_batch self db st batch)
       = st_log st ++ [batch_call self (accepted batch)]
       ∧ st_processed (process_batch self db st batch) = st_processed st
       ∧ (st_errors st + Z.of_nat (length batch)
          ≤ st_errors (process_batch self db st batch))%Z)
  ∧ ∃ st,
      _write_data_to_db self db log records
      = (log ++ batch_calls self (batches (Z.to_nat (batch_size self)) records), Ok st)
      ∧ batch_count st
        = Z.of_nat (ceil_div (length records) (Z.to_nat (batch_size self))).
Proof.
  intros Hpos. split; [|split].
  - intros l db_batch e Hne He. rewrite insert_batch_call by done. by rewrite He.
  - intros st batch e Hne He. rewrite process_batch_spec.
    destruct (accepted batch) as [|d ds] eqn:Hacc; [done|].
    rewrite He. cbn [st_log st_processed st_errors]. repeat split; lia.
  - destruct (write_data_to_db_run self db log records Hpos) as (st & Hrun & _ & Hb & _).
    by exists st.
Qed.

(** C3, as the code behaves.  For a non-empty batch that the database
    accepts, [_insert_batch] returns the number of tuples it submitted,
    whatever affected-row count the database reports, and that number is
    what the loop body adds to the processed count. *)
Theorem insert_batch_returns_submitted_count
    (self : writer) (db : engine) (log : list db_call)
    (db_batch : list (gmap string value)) (affected_rows : Z) :
  db_batch ≠ [] →
  db log (batch_call self db_batch) = Ok affected_rows →
  _insert_batch self db log db_batch
  = (log ++ [batch_call self db_batch], Ok (Z.of_nat (length db_batch)))
  ∧ length (call_rows (batch_call self db_batch)) = length db_batch
  ∧ (∀ st batch,
       st_log st = log → accepted batch = db_batch →
       st_processed (process_batch self db st batch)
       = (st_processed st + Z.of_nat (length db_batch))%Z).
Proof.
  intros Hne Hok. split; [|split].
  - rewrite insert_batch_call by done. by rewrite Hok.
  - unfold batch_call. simpl. apply length_map.
  - intros st batch Hlog Hacc. rewrite process_batch_spec, Hacc, Hlog.
    destruct db_batch as [|d ds]; [done|]. by rewrite Hok.
Qed.

(** C4 (required-field rejection).  Field preparation raises on a record
    whose Project ID or Issue ID is empty after trimming (and on no other
    record).  In a run with a positive batch size such a record is counted
    in the error counter, the surviving records of its batch are still sent
    in the call of that batch, and every row sent to the database is the
    tuple of a record that passed preparation. *)
Theorem required_field_rejection
    (self : writer) (db : engine) (log : list db_call)
    (records : list (gmap string value)) :
  (0 < batch_size self)%Z →
  (∀ record,
     required_field_empty record ↔ ∃ e, _prepare_record_for_db record = Raise e)
  ∧ (∀ record, required_field_empty record → record ∈ records →
       record ∈ rejected records)
  ∧ ∃ st,
      _write_data_to_db self db log records
      = (log ++ batch_calls self (batches (Z.to_nat (batch_size self)) records), Ok st)
      ∧ (Z.of_nat (length (rejected records)) ≤ total_errors st)%Z
      ∧ ((∀ l call, is_ok (db l call) = true) →
           total_errors st = Z.of_nat (length (rejected records))
           ∧ total_processed st = Z.of_nat (length (accepted records)))
      ∧ (∀ batch record d,
           batch ∈ batches (Z.to_nat (batch_size self)) records →
           record ∈ batch → _prepare_record_for_db record = Ok d →
           batch_call self (accepted batch)
             ∈ batch_calls self (batches (Z.to_nat (batch_size self)) records)
           ∧ data_tuple d ∈ call_rows (batch_call self (accepted batch)))
      ∧ (∀ call row,
           call ∈ batch_calls self (batches (Z.to_nat (batch_size self)) records) →
           row ∈ call_rows call →
           ∃ record d, record ∈ records ∧ ¬ required_field_empty record
             ∧ _prepare_record_for_db record = Ok d ∧ row = data_tuple d).
Proof.
  intros Hpos.
  assert (Hiff : ∀ record,
      required_field_empty record ↔ ∃ e, _prepare_record_for_db record = Raise e).
  { intros record.
    destruct (prepare_record_cases record) as [[He [msg Hm]]|[Hn [d Hd]]].
    - split; eauto.
    - split; [done|]. intros [e He]. congruence. }
  split; [exact Hiff|]. split.
  - intros record [e He]%Hiff Hin. unfold rejected.
    apply list_elem_of_filter. split; [by rewrite He|done].
  - destruct (write_data_to_db_run self db log records Hpos)
      as (st & Hrun & _ & _ & Hlow & Hexact).
    set (B := Z.to_nat (batch_size self)) in *.
    assert (HB : 0 < B) by (unfold B; lia).
    exists st. split; [done|]. split; [done|]. split; [done|]. split.
    + intros batch record d Hb Hr Hd.
      assert (Hacc : d ∈ accepted batch).
      { unfold accepted. apply list_elem_of_omap. exists record. by rewrite Hd. }
      split.
      * unfold batch_calls. apply list_elem_of_omap. exists batch. split; [done|].
        destruct (accepted batch); [by apply elem_of_nil in Hacc|done].
      * unfold batch_call. simpl. by apply list_elem_of_fmap_2.
    + intros call row Hcall Hrow.
      assert (Hin : row ∈ concat (call_rows <$> batch_calls self (batches B records))).
      { apply elem_of_concat. exists (call_rows call). split; [|done].
        by apply list_elem_of_fmap_2. }
      rewrite batch_calls_rows, batches_concat in Hin by done.
      apply list_elem_of_fmap in Hin as (d & -> & Hd).
      unfold accepted in Hd. apply list_elem_of_omap in Hd as (record & Hrec & Hprep).
      destruct (_prepare_record_for_db record) as [d'|e] eqn:Hp; [|done].
      injection Hprep as ->.
      exists record, d. split; [done|]. split; [|done].
      intros [e He]%Hiff. congruence.
Qed.

(** C5, as the code behaves.  The records are cut into batches before they
    are prepared, and a batch is sent when at least one of its records
    survives preparation.  So, for batch size B, N records and M surviving
    records, the number of persistence calls is the number of batches with a
    surviving record; it lies between ceil(M/B) and ceil(N/B), and is
    ceil(M/B) when no record is rejected.  The rows sent, in order, are
    exactly the tuples of the surviving records, and the business key of
    each is the pair of its two required columns, trimmed and cut to 100
    characters. *)
Theorem chunking_calls
    (self : writer) (db : engine) (log : list db_call)
    (records : list (gmap string value)) :
  (0 < batch_size self)%Z →
  (∃ st,
     _write_data_to_db self db log records
     = (log ++ batch_calls self (batches (Z.to_nat (batch_size self)) records), Ok st))
  ∧ length (batch_calls self (batches (Z.to_nat (batch_size self)) records))
    = length (filter (λ batch, accepted batch ≠ [])
                (batches (Z.to_nat (batch_size self)) records))
  ∧ ceil_div (length (accepted records)) (Z.to_nat (batch_size self))
    ≤ length (batch_calls self (batches (Z.to_nat (batch_size self)) records))
  ∧ length (batch_calls self (batches (Z.to_nat (batch_size self)) records))
    ≤ ceil_div (length records) (Z.to_nat (batch_size self))
  ∧ (rejected records = [] →
     length (batch_calls self (batches (Z.to_nat (batch_size self)) records))
     = ceil_div (length (accepted records)) (Z.to_nat (batch_size self)))
  ∧ concat (call_rows <$> batch_calls self (batches (Z.to_nat (batch_size self)) records))
    = data_tuple <$> accepted records
  ∧ (∀ record d,
       _prepare_record_for_db record = Ok d →
       take 2 (data_tuple d)
       = [ VStr (str_prefix 100 (column_text record "Project ID"));
           VStr (str_prefix 100 (column_text record "Issue ID")) ]).
Proof.
  intros Hpos.
  destruct (write_data_to_db_run self db log records Hpos) as (st & Hrun & _).
  set (B := Z.to_nat (batch_size self)) in *.
  assert (HB : 0 < B) by (unfold B; lia).
  split; [by exists st|]. split; [apply batch_calls_length|].
  split; [|split; [|split; [|split]]].
  - apply ceil_div_le_bound; [done|].
    pose proof (accepted_within_calls self B (batches B records)
                  (batches_bounded B records)) as H.
    by rewrite batches_concat in H.
  - rewrite <- batches_length. apply batch_calls_length_le.
  - intros Hrej.
    rewrite batch_calls_none_rejected.
    + rewrite batches_length. f_equal.
      pose proof (accepted_rejected_length records) as H. rewrite Hrej in H.
      simpl in H. lia.
    + by rewrite batches_concat.
    + by apply batches_nonempty.
  - rewrite batch_calls_rows. by rewrite batches_concat.
  - apply prepared_key.
Qed.

(** C10 (null coercion and metadata).  In every record that field
    preparation accepts, each field other than the two key fields whose
    column trims to the empty string is [None], whatever the width of its
    column; no field at all holds the empty string; and the two metadata
    fields hold 1.0.0 and completed. *)
Theorem prepare_record_null_coercion (record d : gmap string value) :
  _prepare_record_for_db record = Ok d →
  (∀ o f, (o, f) ∈ field_mapping → is_key_field f = false →
     column_text record o = "" → d !! f = Some VNone)
  ∧ (∀ f, d !! f ≠ Some (VStr ""))
  ∧ d !! "ml_pipeline_version" = Some (VStr "1.0.0")
  ∧ d !! "processing_status" = Some (VStr "completed").
Proof.
  intros Hp. unfold _prepare_record_for_db in Hp.
  destruct (prepare_fields field_mapping record ∅) as [d0|e] eqn:Hf; [|done].
  injection Hp as <-.
  destruct (prepare_fields_lookup _ _ _ _ field_mapping_NoDup Hf) as [Hin Hout].
  split; [|split; [|split]].
  - intros o f Hmem Hk Hempty.
    destruct (field_mapping_not_metadata _ _ Hmem) as [Hv Hs].
    rewrite !lookup_insert_ne by done.
    destruct (Hin _ _ Hmem) as (v & Hv' & ->).
    destruct (prepare_field_other f (dict_get record o (VStr "")) Hk)
      as (v' & Hv'' & _ & Hnone).
    f_equal. rewrite <- (Hnone Hempty). congruence.
  - intros f.
    destruct (decide (f = "processing_status")) as [->|Hs];
      [by rewrite lookup_insert_eq|].
    rewrite lookup_insert_ne by done.
    destruct (decide (f = "ml_pipeline_version")) as [->|Hv];
      [by rewrite lookup_insert_eq|].
    rewrite lookup_insert_ne by done.
    destruct (decide (f ∈ field_mapping.*2)) as [Hmem|Hnot].
    + apply list_elem_of_fmap in Hmem as ([o f'] & -> & Hmem).
      destruct (Hin _ _ Hmem) as (v & Hv' & Hd). simpl. rewrite Hd.
      intros [= ->]. by apply prepare_field_ok_nonempty in Hv'.
    + by rewrite (Hout _ Hnot), lookup_empty.
  - rewrite lookup_insert_ne by done. apply lookup_insert_eq.
  - apply lookup_insert_eq.
Qed.

(** *** The claims at sample inputs *)

(** Two records, batches of one, and a database whose first statement
    fails: the run does not raise, and the second batch is still sent. *)
Lemma chunk_failure_counterexample :
  engine_first_fails []
    (batch_call (sample_writer 1) (accepted [sample_record "P1" "I1"]))
  = Raise (PyException "Lost connection to MySQL server")
  ∧ _write_data_to_db (sample_writer 1) engine_first_fails []
      [sample_record "P1" "I1"; sample_record "P1" "I2"]
    = ([ batch_call (sample_writer 1) (accepted [sample_record "P1" "I1"]);
         batch_call (sample_writer 1) (accepted [sample_record "P1" "I2"]) ],
       Ok {| total_records := 2; total_processed := 1;
             total_errors := 1; batch_count := 2 |}).
Proof. split; [reflexivity|]. vm_compute. reflexivity. Qed.

Lemma chunk_failure_is_isolated_witness :
  (0 < batch_size (sample_writer 1))%Z
  ∧ ∃ st,
      _write_data_to_db (sample_writer 1) engine_first_fails []
        [sample_record "P1" "I1"; sample_record "P1" "I2"]
      = ([] ++ batch_calls (sample_writer 1)
                 (batches (Z.to_nat (batch_size (sample_writer 1)))
                    [sample_record "P1" "I1"; sample_record "P1" "I2"]),
         Ok st)
      ∧ batch_count st
        = Z.of_nat (ceil_div (length [sample_record "P1" "I1"; sample_record "P1" "I2"])
                      (Z.to_nat (batch_size (sample_writer 1)))).
Proof.
  split; [reflexivity|].
  apply (chunk_failure_is_isolated (sample_writer 1) engine_first_fails []
           [sample_record "P1" "I1"; sample_record "P1" "I2"]).
  reflexivity.
Defined.

(** One record that already exists: the database reports two affected
    rows, [_insert_batch] returns one, and one is what the run counts. *)
Lemma insert_batch_count_counterexample :
  engine_updates []
    (batch_call (sample_writer 1000) (accepted [sample_record "P1" "I1"]))
  = Ok 2%Z
  ∧ _insert_batch (sample_writer 1000) engine_updates []
      (accepted [sample_record "P1" "I1"])
    = ([batch_call (sample_writer 1000) (accepted [sample_record "P1" "I1"])], Ok 1%Z)
  ∧ _write_data_to_db (sample_writer 1000) engine_updates [] [sample_record "P1" "I1"]
    = ([batch_call (sample_writer 1000) (accepted [sample_record "P1" "I1"])],
       Ok {| total_records := 1; total_processed := 1;
             total_errors := 0; batch_count := 1 |}).
Proof. split; [reflexivity|]. split; vm_compute; reflexivity. Qed.

Lemma insert_batch_returns_submitted_count_witness :
  accepted [sample_record "P1" "I1"] ≠ []
  ∧ engine_updates []
      (batch_call (sample_writer 1000) (accepted [sample_record "P1" "I1"]))
    = Ok 2%Z
  ∧ _insert_batch (sample_writer 1000) engine_updates []
      (accepted [sample_record "P1" "I1"])
    = ([] ++ [batch_call (sample_writer 1000) (accepted [sample_record "P1" "I1"])],
       Ok (Z.of_nat (length (accepted [sample_record "P1" "I1"])))).
Proof.
  assert (H1 : accepted [sample_record "P1" "I1"] ≠ []) by (vm_compute; discriminate).
  assert (H2 : engine_updates []
                 (batch_call (sample_writer 1000) (accepted [sample_record "P1" "I1"]))
               = Ok 2%Z) by reflexivity.
  split; [exact H1|]. split; [exact H2|].
  apply (insert_batch_returns_submitted_count (sample_writer 1000) engine_updates []
           (accepted [sample_record "P1" "I1"]) 2 H1 H2).
Defined.

(** A record with a blank Project ID between two good ones, batches of
    two. *)
Definition sample_mixed : list (gmap string value) :=
  [sample_record "P1" "I1"; sample_record "   " "I2"; sample_record "P1" "I3"].

Lemma required_field_rejection_witness :
  (0 < batch_size (sample_writer 2))%Z
  ∧ required_field_empty (sample_record "   " "I2")
  ∧ sample_record "   " "I2" ∈ rejected sample_mixed
  ∧ ∃ st,
      _write_data_to_db (sample_writer 2) engine_accepts [] sample_mixed
      = ([] ++ batch_calls (sample_writer 2)
                 (batches (Z.to_nat (batch_size (sample_writer 2))) sample_mixed),
         Ok st)
      ∧ (Z.of_nat (length (rejected sample_mixed)) ≤ total_errors st)%Z.
Proof.
  assert (H0 : (0 < batch_size (sample_writer 2))%Z) by reflexivity.
  assert (H1 : required_field_empty (sample_record "   " "I2")) by (left; reflexivity).
  destruct (required_field_rejection (sample_writer 2) engine_accepts [] sample_mixed H0)
    as (_ & Hrej & st & Hrun & Hlow & _).
  split; [exact H0|]. split; [exact H1|]. split.
  - apply Hrej; [exact H1|]. apply list_elem_of_further, list_elem_of_here.
  - exists st. split; [exact Hrun|exact Hlow].
Defined.

(** Two surviving records and batches of two: ceil(2/2) is one, but two
    calls are made, because the rejected record sat in the first batch. *)
Lemma chunking_counterexample :
  length (accepted sample_mixed) = 2
  ∧ ceil_div (length (accepted sample_mixed)) 2 = 1
  ∧ _write_data_to_db (sample_writer 2) engine_accepts [] sample_mixed
    = ([ batch_call (sample_writer 2) (accepted [sample_record "P1" "I1"]);
         batch_call (sample_writer 2) (accepted [sample_record "P1" "I3"]) ],
       Ok {| total_records := 3; total_processed := 2;
             total_errors := 1; batch_count := 2 |}).
Proof. split; [|split]; vm_compute; reflexivity. Qed.

Lemma chunking_calls_witness :
  (0 < batch_size (sample_writer 2))%Z
  ∧ ceil_div (length (accepted sample_mixed)) (Z.to_nat (batch_size (sample_writer 2)))
    ≤ length (batch_calls (sample_writer 2)
                (batches (Z.to_nat (batch_size (sample_writer 2))) sample_mixed))
  ∧ length (batch_calls (sample_writer 2)
              (batches (Z.to_nat (batch_size (sample_writer 2))) sample_mixed))
    ≤ ceil_div (length sample_mixed) (Z.to_nat (batch_size (sample_writer 2)))
  ∧ concat (call_rows <$> batch_calls (sample_writer 2)
              (batches (Z.to_nat (batch_size (sample_writer 2))) sample_mixed))
    = data_tuple <$> accepted sample_mixed.
Proof.
  assert (H0 : (0 < batch_size (sample_writer 2))%Z) by reflexivity.
  destruct (chunking_calls (sample_writer 2) engine_accepts [] sample_mixed H0)
    as (_ & _ & Hlow & Hhigh & _ & Hrows & _).
  split; [exact H0|]. split; [exact Hlow|]. split; [exact Hhigh|exact Hrows].
Defined.

(** A record with only its keys and a blank class: every other field is
    [None]. *)
Definition sample_sparse : gmap string value :=
  list_to_map [ ("Project ID", VStr " P7 "); ("Issue ID", VInt 42);
                ("Project Issue class", VStr "  "); ("Issue Start Date", VNone) ].

Lemma prepare_record_null_coercion_witness :
  ∃ d, _prepare_record_for_db sample_sparse = Ok d
     ∧ d !! "project_id" = Some (VStr "P7")
     ∧ d !! "issue_id" = Some (VStr "42")
     ∧ d !! "project_issue_class" = Some VNone
     ∧ d !! "issue_start_date" = Some VNone
     ∧ d !! "ml_pipeline_version" = Some (VStr "1.0.0")
     ∧ d !! "processing_status" = Some (VStr "completed").
Proof.
  destruct (_prepare_record_for_db sample_sparse) as [d|e] eqn:Hp;
    [|vm_compute in Hp; discriminate Hp].
  destruct (prepare_record_null_coercion sample_sparse d Hp) as (Hnull & _ & Hv & Hs).
  exists d. split; [reflexivity|].
  split; [injection Hp as <-; vm_compute; reflexivity|].
  split; [injection Hp as <-; vm_compute; reflexivity|].
  split.
  { apply (Hnull "Project Issue class"); [|reflexivity|reflexivity].
    do 4 apply list_elem_of_further. apply list_elem_of_here. }
  split.
  { apply (Hnull "Issue Start Date"); [|reflexivity|reflexivity].
    do 21 apply list_elem_of_further. apply list_elem_of_here. }
  split; [exact Hv|exact Hs].
Defined.

End WriterProps.

(** ** Connection manager *)

Module ConnectionManagerProps.
Import ConnectionManager.

Lemma filtered_params_lookup params k :
  filtered_params params !! k = if decide (k = "sslmode") then None else params !! k.
Proof.
  unfold filtered_params. case_decide as Hk.
  - subst k. apply map_lookup_filter_None_2.
    destruct (params !! "sslmode") as [v|]; [right|by left].
    intros x _ Hne. by apply Hne.
  - destruct (params !! k) as [v|] eqn:Hv.
    + by apply map_lookup_filter_Some_2.
    + apply map_lookup_filter_None_2. by left.
Qed.

Lemma default_params_lookup k :
  default_params !! k
  = items_lookup k
      [ ("charset", VStr "utf8mb4"); ("connect_timeout", VInt 30);
        ("autocommit", VBool true); ("use_unicode", VBool true);
        ("sql_mode",
         VStr "STRICT_TRANS_TABLES,NO_ZERO_DATE,NO_ZERO_IN_DATE,ERROR_FOR_DIVISION_BY_ZERO") ].
Proof. unfold default_params. apply list_to_map_items_lookup. Qed.

(** C8 (connection parameters).  The effective parameters of a manager are
    the fixed defaults overridden, key by key, by the parameters the caller
    supplied, except that the caller's sslmode is dropped: under sslmode
    there is nothing, under any other key the caller's value when there is
    one and the default otherwise.  The defaults are charset utf8mb4,
    connect_timeout 30, autocommit and use_unicode true, and the strict
    sql_mode. *)
Theorem connection_params_merge (cfg : connection_config) (k : string) :
  connection_params (__init__ cfg) !! k
  = (if decide (k = "sslmode") then None
     else match default ∅ (config_connection_params cfg) !! k with
          | Some v => Some v
          | None => default_params !! k
          end)
  ∧ default_params !! "charset" = Some (VStr "utf8mb4")
  ∧ default_params !! "connect_timeout" = Some (VInt 30)
  ∧ default_params !! "autocommit" = Some (VBool true)
  ∧ default_params !! "use_unicode" = Some (VBool true)
  ∧ default_params !! "sql_mode"
    = Some (VStr "STRICT_TRANS_TABLES,NO_ZERO_DATE,NO_ZERO_IN_DATE,ERROR_FOR_DIVISION_BY_ZERO")
  ∧ dom default_params
    = ({[ "charset"; "connect_timeout"; "autocommit"; "use_unicode"; "sql_mode" ]}
       : gset string).
Proof.
  split.
  - unfold __init__. cbn [connection_params]. unfold merge_params.
    rewrite lookup_union, filtered_params_lookup.
    case_decide as Hk.
    + subst k. by rewrite default_params_lookup.
    + by destruct (default ∅ (config_connection_params cfg) !! k),
                  (default_params !! k).
  - split; [by rewrite default_params_lookup|].
    split; [by rewrite default_params_lookup|].
    split; [by rewrite default_params_lookup|].
    split; [by rewrite default_params_lookup|].
    split; [by rewrite default_params_lookup|].
    unfold default_params. rewrite dom_list_to_map_L. simpl. set_solver.
Qed.

(** A caller that overrides the character set, asks for a TLS mode and adds
    a read timeout. *)
Definition sample_config : connection_config :=
  {| config_entries :=
       list_to_map [ ("host", VStr "db.example.internal"); ("database", VStr "pmg_issue_ai") ];
     config_connection_params :=
       Some (list_to_map [ ("charset", VStr "latin1"); ("sslmode", VStr "require");
                           ("read_timeout", VInt 10) ]) |}.

Example sample_config_params :
  map_to_list (connection_params (__init__ sample_config))
  ≡ₚ [ ("charset", VStr "latin1"); ("connect_timeout", VInt 30);
       ("autocommit", VBool true); ("use_unicode", VBool true);
       ("sql_mode",
        VStr "STRICT_TRANS_TABLES,NO_ZERO_DATE,NO_ZERO_IN_DATE,ERROR_FOR_DIVISION_BY_ZERO");
       ("read_timeout", VInt 10) ]
  ∧ port (__init__ sample_config) = VInt 3306.
Proof.
  split; [|reflexivity].
  apply (bool_decide_unpack _). by vm_compute.
Qed.

End ConnectionManagerProps.

(** ** Endpoint discovery *)

Module DiscoveryProps.
Import Discovery.

(** The instances the discovery loop keeps. *)
Definition kept (self : discovery) (d : db_instance) : bool :=
  is_mysql_engine d && _is_instance_accessible self (make_instance_info d).

(** [a] does not rank below [b]: its key is not smaller. *)
Definition ranks_no_lower (self : discovery) (a b : instance_info) : Prop :=
  key_lt (sort_key self a) (sort_key self b) = false.

Lemma discover_step_kept self acc d :
  discover_step self acc d
  = if kept self d then acc ++ [make_instance_info d] else acc.
Proof.
  unfold discover_step, kept.
  by destruct (is_mysql_engine d), (_is_instance_accessible self (make_instance_info d)).
Qed.

Lemma discover_fold self instances acc :
  fold_left (discover_step self) instances acc
  = acc ++ (make_instance_info <$> filter (λ d, kept self d = true) instances).
Proof.
  revert acc. induction instances as [|d instances IH]; intros acc.
  - simpl. by rewrite app_nil_r.
  - cbn [fold_left]. rewrite IH, filter_cons, discover_step_kept.
    destruct (kept self d); case_decide; try done.
    rewrite fmap_cons, <- app_assoc. reflexivity.
Qed.

Lemma kept_iff self d :
  kept self d = true
  ↔ (lower (Engine d) = "mysql" ∨ lower (Engine d) = "aurora-mysql")
    ∧ (default false (PubliclyAccessible d) = true
       ∨ no_instance_id self = true
       ∨ lower (DBInstanceStatus d) = "available").
Proof.
  unfold kept, is_mysql_engine, _is_instance_accessible, Writer.str_in. simpl.
  rewrite andb_true_iff, !orb_true_iff, !String.eqb_eq.
  destruct (default false (PubliclyAccessible d)), (no_instance_id self);
    rewrite ?String.eqb_eq; intuition congruence.
Qed.

(** *** The order on keys *)

Lemma key_lt_asym a b : key_lt a b = true → key_lt b a = false.
Proof.
  destruct a as [[a1 a2] a3], b as [[b1 b2] b3]. unfold key_lt.
  destruct (Z.eqb_spec a1 b1), (Z.eqb_spec b1 a1), (Z.eqb_spec a2 b2),
    (Z.eqb_spec b2 a2); simpl; rewrite ?Z.ltb_lt, ?Z.ltb_ge; lia.
Qed.

Lemma key_ge_trans a b c :
  key_lt a b = false → key_lt b c = false → key_lt a c = false.
Proof.
  destruct a as [[a1 a2] a3], b as [[b1 b2] b3], c as [[c1 c2] c3]. unfold key_lt.
  destruct (Z.eqb_spec a1 b1), (Z.eqb_spec b1 c1), (Z.eqb_spec a1 c1),
    (Z.eqb_spec a2 b2), (Z.eqb_spec b2 c2), (Z.eqb_spec a2 c2);
    simpl; rewrite ?Z.ltb_lt, ?Z.ltb_ge; lia.
Qed.

(** *** The sort *)

Section sorting.
Context {A : Type} (key : A → Z * Z * Z).

Let no_lower (a b : A) : Prop := key_lt (key a) (key b) = false.

Lemma insert_desc_perm x l : insert_desc key x l ≡ₚ x :: l.
Proof.
  induction l as [|y l IH]; simpl; [done|].
  destruct (key_lt (key x) (key y)); [|done].
  rewrite IH. apply Permutation_swap.
Qed.

Lemma insert_desc_sorted x l :
  StronglySorted no_lower l → StronglySorted no_lower (insert_desc key x l).
Proof.
  induction 1 as [|y l Hl IH Hy]; simpl.
  - repeat constructor.
  - destruct (key_lt (key x) (key y)) eqn:Hxy.
    + constructor; [done|].
      rewrite insert_desc_perm. constructor; [|done].
      by apply key_lt_asym.
    + constructor; [by constructor|].
      constructor; [done|].
      eapply Forall_impl; [exact Hy|]. intros z Hz.
      by apply (key_ge_trans _ (key y)).
Qed.

Lemma sort_desc_perm l : sort_desc key l ≡ₚ l.
Proof.
  induction l as [|x l IH]; simpl; [done|].
  by rewrite insert_desc_perm, IH.
Qed.

Lemma sort_desc_sorted l : StronglySorted no_lower (sort_desc key l).
Proof.
  induction l as [|x l IH]; simpl; [constructor|].
  by apply insert_desc_sorted.
Qed.

(** The head of the sorted list is an element no other element outranks. *)
Lemma sort_desc_head l best :
  head (sort_desc key l) = Some best →
  best ∈ l ∧ ∀ x, x ∈ l → no_lower best x.
Proof.
  intros Hhead. pose proof (sort_desc_sorted l) as Hs.
  pose proof (sort_desc_perm l) as Hp.
  destruct (sort_desc key l) as [|b rest]; [done|].
  injection Hhead as ->. apply StronglySorted_cons in Hs as [Hall _].
  split.
  - rewrite <- Hp. by left.
  - intros x Hx. rewrite <- Hp in Hx.
    apply elem_of_cons in Hx as [->|Hx].
    + unfold no_lower. destruct (key_lt (key best) (key best)) eqn:H; [|done].
      by rewrite (key_lt_asym _ _ H) in H.
    + by apply (proj1 (Forall_forall _ _) Hall).
Qed.

End sorting.

(** C9, as the code behaves.  Discovery keeps, in the order of the describe
    response, the instances whose engine (in lower case) is mysql or
    aurora-mysql and that are publicly accessible, or met while the machine's
    own instance id is unknown, or in status available (in lower case); only
    a private instance met with a known instance id is dropped for its
    status.  Without a client, or when the describe call fails, nothing is
    found.  [get_recommended_instance] sorts what was found by the key
    (status is available, same availability zone, allocated storage) in
    descending order and returns the head: an instance found that no other
    one outranks, and none when nothing was found. *)
Theorem discovery_filtering_and_ranking (self : discovery) :
  discover_mysql_instances self
  = match rds_client self with
    | Some (Ok instances) =>
        make_instance_info <$> filter (λ d, kept self d = true) instances
    | _ => []
    end
  ∧ (∀ d, kept self d = true
          ↔ (lower (Engine d) = "mysql" ∨ lower (Engine d) = "aurora-mysql")
            ∧ (default false (PubliclyAccessible d) = true
               ∨ no_instance_id self = true
               ∨ lower (DBInstanceStatus d) = "available"))
  ∧ get_recommended_instance self
    = head (sort_desc (sort_key self) (discover_mysql_instances self))
  ∧ sort_desc (sort_key self) (discover_mysql_instances self)
    ≡ₚ discover_mysql_instances self
  ∧ StronglySorted (ranks_no_lower self)
      (sort_desc (sort_key self) (discover_mysql_instances self))
  ∧ (∀ best, get_recommended_instance self = Some best →
       best ∈ discover_mysql_instances self
       ∧ ∀ info, info ∈ discover_mysql_instances self → ranks_no_lower self best info)
  ∧ (get_recommended_instance self = None ↔ discover_mysql_instances self = []).
Proof.
  assert (Hhead : get_recommended_instance self
                  = head (sort_desc (sort_key self) (discover_mysql_instances self))).
  { unfold get_recommended_instance. by destruct (discover_mysql_instances self). }
  split; [|split; [|split; [|split; [|split; [|split]]]]].
  - unfold discover_mysql_instances.
    destruct (rds_client self) as [[instances|e]|]; [|done|done].
    by rewrite discover_fold.
  - apply kept_iff.
  - exact Hhead.
  - apply sort_desc_perm.
  - apply sort_desc_sorted.
  - intros best Hbest. rewrite Hhead in Hbest.
    by apply (sort_desc_head (sort_key self)).
  - rewrite Hhead. pose proof (sort_desc_perm (sort_key self)
                                 (discover_mysql_instances self)) as Hp.
    split.
    + intros Hnone. destruct (sort_desc _ _) as [|b rest]; [|done].
      by apply Permutation_nil_l in Hp.
    + intros Hnil. rewrite Hnil. reflexivity.
Qed.

(** *** A sample describe response *)

Definition sample_instance (id eng st az : string) (public : bool) (size : Z)
  : db_instance :=
  {| DBInstanceIdentifier := id; Engine := eng;
     EndpointAddress := id +:+ ".rds.example.internal"; EndpointPort := 3306;
     DBInstanceStatus := st; AvailabilityZone := az;
     VpcSecurityGroups := ["sg-1"]; DBSubnetGroupName := None;
     PubliclyAccessible := Some public; StorageEncrypted := None;
     MasterUsername := Some "admin"; AllocatedStorage := size;
     DBInstanceClass := None; InstanceCreateTime := None |}.

(** A machine that knows its instance id and sees one MySQL instance, which
    is stopped and publicly accessible. *)
Definition sample_stopped : discovery :=
  {| rds_client := Some (Ok [sample_instance "reports" "mysql" "stopped" "ap-south-1a" true 20]);
     ec2_client := Some (Ok (Some "ap-south-1a"));
     instance_id := Some "i-0abc" |}.

(** The stopped instance is kept, and it is the one recommended. *)
Lemma discovery_counterexample :
  discover_mysql_instances sample_stopped
  = [make_instance_info (sample_instance "reports" "mysql" "stopped" "ap-south-1a" true 20)]
  ∧ status (make_instance_info
              (sample_instance "reports" "mysql" "stopped" "ap-south-1a" true 20))
    = "stopped"
  ∧ get_recommended_instance sample_stopped
    = Some (make_instance_info
              (sample_instance "reports" "mysql" "stopped" "ap-south-1a" true 20)).
Proof. repeat split. Qed.

(** A response with several engines and states, on a machine in zone a. *)
Definition sample_fleet : discovery :=
  {| rds_client :=
       Some (Ok [ sample_instance "a" "MySQL" "stopped" "ap-south-1a" true 10;
                  sample_instance "b" "postgres" "available" "ap-south-1a" true 10;
                  sample_instance "c" "aurora-mysql" "available" "ap-south-1b" false 5;
                  sample_instance "d" "mysql" "available" "ap-south-1b" false 5;
                  sample_instance "e" "mysql" "Stopped" "ap-south-1a" false 100;
                  sample_instance "f" "mysql" "available" "ap-south-1a" false 1 ]);
     ec2_client := Some (Ok (Some "ap-south-1a"));
     instance_id := Some "i-0abc" |}.

Example sample_fleet_ranking :
  identifier <$> discover_mysql_instances sample_fleet = ["a"; "c"; "d"; "f"]
  ∧ identifier <$> sort_desc (sort_key sample_fleet) (discover_mysql_instances sample_fleet)
    = ["f"; "c"; "d"; "a"]
  ∧ identifier <$> get_recommended_instance sample_fleet = Some "f".
Proof. repeat split. Qed.

End DiscoveryProps.
